(** * QuizWebSocket: room coordinator (src/index.js)

    A shallow embedding of the WebSocket message handler of [src/index.js]:
    the global [rooms] object, the per-connection tags [ws.room] and
    [ws.userEmail], the session timers ([setInterval] handles), and the
    outbound messages produced by [safeSend]/[broadcast].

    Modelling choices:
    - connections ([ws] objects) are named by [nat]; the room roster holds
      these names, so rebinding a participant replaces the name in place;
    - request fields that the code only tests for truthiness and uses as
      identities or property keys (roomCode, userEmail, username,
      quizData, the relayed body) are [option string]: [None] is an absent
      field, [Some ""] is present but falsy; fields the code tests with
      [typeof x === "number"] (timerSeconds, score) are [option jnum],
      [None] standing for any value that is not a number;
    - a JavaScript number is a finite value (an exact rational), NaN or an
      infinity; finite arithmetic is exact, which agrees with IEEE doubles
      on the integer-valued timer values below 2^53;
    - [rooms] is a plain object: a lookup of a key it does not own but
      inherits from [Object.prototype] ("constructor", "__proto__", ...)
      yields a truthy non-room value;
    - every [safeSend] call is recorded as a pair (connection, message) in
      the output, in call order; whether the transport delivers it (the
      [readyState] test and the transport itself) is outside the model;
    - a handler that throws (an uncaught TypeError, which stops the
      process) or a room-code loop that runs past the modelled stream of
      [Math.random] values yields [None]. *)

From Stdlib Require Import QArith Qround ZArith Lia.
From stdpp Require Import base gmap strings list.

Open Scope string_scope.

(** ** JavaScript numbers *)

Inductive jnum :=
| JFin (q : Q)
| JNaN
| JInf (positive : bool).

Definition jint (z : Z) : jnum := JFin (inject_Z z).

(** [Math.floor] *)
Definition js_floor (x : jnum) : jnum :=
  match x with
  | JFin q => jint (Qfloor q)
  | _ => x
  end.

(** [Math.max(1, x)]: NaN if [x] is NaN. *)
Definition js_max1 (x : jnum) : jnum :=
  match x with
  | JFin q => if Qle_bool 1 q then x else jint 1
  | JNaN => JNaN
  | JInf true => x
  | JInf false => jint 1
  end.

(** [x--], computed exactly: it agrees with the double operation on
    integers of magnitude at most 2^53 (and on NaN and the infinities),
    not above, where the double result is rounded. *)
Definition js_dec (x : jnum) : jnum :=
  match x with
  | JFin q => JFin (Qred (q - 1))
  | _ => x
  end.

(** [x <= 0]: false for NaN. *)
Definition js_le0 (x : jnum) : bool :=
  match x with
  | JFin q => Qle_bool q 0
  | JNaN => false
  | JInf p => negb p
  end.

(** Truthiness of a number: [0] and [NaN] are falsy. *)
Definition js_truthy_num (x : jnum) : bool :=
  match x with
  | JFin q => negb (Qeq_bool q 0)
  | JNaN => false
  | JInf _ => true
  end.

(** A present and truthy string field ([!x] is false). *)
Definition field (o : option string) : option string :=
  match o with
  | Some s => if String.eqb s "" then None else Some s
  | None => None
  end.

(** The property key of [rooms[x]]: [String(x)]. *)
Definition key_of (o : option string) : string :=
  match o with
  | Some s => s
  | None => "undefined"
  end.

(** Keys that a plain object inherits from [Object.prototype]. *)
Definition inherited_keys : list string :=
  ["__proto__"; "constructor"; "hasOwnProperty"; "isPrototypeOf";
   "propertyIsEnumerable"; "toLocaleString"; "toString"; "valueOf";
   "__defineGetter__"; "__defineSetter__"; "__lookupGetter__";
   "__lookupSetter__"].

(** ** Data model *)

Record participant := mkP { pws : nat; pemail : string }.

Inductive rstate := Waiting | Started | Ended.

#[global] Instance rstate_eq_dec : EqDecision rstate.
Proof. solve_decision. Defined.

Record timer := mkT { timeRemaining : jnum; interval : nat }.

Record room := mkRoom {
  owner : participant;
  clients : list participant;
  quiz : option string;
  state : rstate;
  rtimer : option timer;
  finished : option (gmap string jnum)
}.

Record conn := mkC { croom : option string; cemail : option string }.

Definition conn0 : conn := mkC None None.

Record sys := mkSys {
  rooms : gmap string room;
  conns : gmap nat conn;
  intervals : list (nat * string);  (* active setInterval handles and the roomCode they close over *)
  next_iv : nat;
  rng : list Z                       (* future Math.random() values, as n / 2^53 *)
}.

Inductive msg :=
| MError (text : string)
| MCreated (code : string) (q : option string)
| MJoined (code : string) (q : option string)
| MUserJoined (email : string) (username : option string)
| MSessionStarted (isOwner : bool) (q : option string) (t : jnum)
| MTimerTick (t : jnum)
| MSessionEnded
| MReconnected (q : option string) (role : string) (st : rstate) (t : option jnum)
| MRoomDeleted (code : string) (isOwner : bool)
| MRoomClosed
| MUserLeft (remaining : list participant)
| MLeftRoom (code : string)
| MUserFinished (email : string) (score : jnum) (t : jnum)
| MRelay (body : option string).

Definition out := (nat * msg)%type.

(** Result of [rooms[k]]. *)
Inductive lookup_res := Own (r : room) | Inherited | Absent.

Definition rooms_get (m : gmap string room) (k : string) : lookup_res :=
  match m !! k with
  | Some r => Own r
  | None => if bool_decide (k ∈ inherited_keys) then Inherited else Absent
  end.

Definition conn_of (s : sys) (ws : nat) : conn :=
  match conns s !! ws with Some c => c | None => conn0 end.

(** ** A state, output and exception monad *)

Definition M (A : Type) := sys -> option (A * sys * list out).

Definition ret {A} (a : A) : M A := fun s => Some (a, s, []).

Definition bind {A B} (m : M A) (k : A -> M B) : M B :=
  fun s =>
    match m s with
    | None => None
    | Some (a, s1, o1) =>
        match k a s1 with
        | None => None
        | Some (b, s2, o2) => Some (b, s2, (o1 ++ o2)%list)
        end
    end.

Notation "x <- m ;; k" := (bind m (fun x => k))
  (at level 100, m at next level, right associativity).
Notation "m ;;; k" := (bind m (fun _ => k))
  (at level 100, right associativity).

Definition get : M sys := fun s => Some (s, s, []).
Definition modify (f : sys -> sys) : M unit := fun s => Some (tt, f s, []).
(** An uncaught exception. *)
Definition throw {A} : M A := fun _ => None.

(** [safeSend(ws, obj)] *)
Definition safeSend (ws : nat) (m : msg) : M unit := fun s => Some (tt, s, [(ws, m)]).

Fixpoint forEach {A} (l : list A) (f : A -> M unit) : M unit :=
  match l with
  | [] => ret tt
  | x :: l' => f x ;;; forEach l' f
  end.

(** [broadcast(clients, obj)] *)
Definition broadcast (ps : list participant) (m : msg) : M unit :=
  forEach ps (fun p => safeSend (pws p) m).

Definition with_rooms (f : gmap string room -> gmap string room) (s : sys) : sys :=
  mkSys (f (rooms s)) (conns s) (intervals s) (next_iv s) (rng s).
Definition with_conns (f : gmap nat conn -> gmap nat conn) (s : sys) : sys :=
  mkSys (rooms s) (f (conns s)) (intervals s) (next_iv s) (rng s).

Definition set_room (code : string) (r : room) : M unit :=
  modify (with_rooms (insert code r)).
Definition del_room (code : string) : M unit :=
  modify (with_rooms (delete code)).

Definition set_croom (ws : nat) (v : option string) : M unit :=
  modify (fun s => with_conns (insert ws (mkC v (cemail (conn_of s ws)))) s).
Definition set_cemail (ws : nat) (v : option string) : M unit :=
  modify (fun s => with_conns (insert ws (mkC (croom (conn_of s ws)) v)) s).

(** [clearInterval(i)] *)
Definition clearInterval (i : nat) : M unit :=
  modify (fun s => mkSys (rooms s) (conns s)
                         (filter (fun p => p.1 ≠ i) (intervals s))
                         (next_iv s) (rng s)).

(** [setInterval(cb, 1000)] for the callback closing over [code]. *)
Definition setInterval (code : string) : M nat :=
  fun s => Some (next_iv s,
                 mkSys (rooms s) (conns s) ((next_iv s, code) :: intervals s)
                       (S (next_iv s)) (rng s), []).

(** [Math.random()]: [None] past the modelled stream. *)
Definition random : M Z :=
  fun s => match rng s with
           | [] => None
           | n :: rest => Some (n, mkSys (rooms s) (conns s) (intervals s) (next_iv s) rest, [])
           end.

(** Room record updates. *)
Definition r_with_clients (r : room) (cs : list participant) : room :=
  mkRoom (owner r) cs (quiz r) (state r) (rtimer r) (finished r).
Definition r_with_owner (r : room) (o : participant) : room :=
  mkRoom o (clients r) (quiz r) (state r) (rtimer r) (finished r).
Definition r_with_state (r : room) (st : rstate) : room :=
  mkRoom (owner r) (clients r) (quiz r) st (rtimer r) (finished r).
Definition r_with_timer (r : room) (t : option timer) : room :=
  mkRoom (owner r) (clients r) (quiz r) (state r) t (finished r).
Definition r_with_finished (r : room) (f : gmap string jnum) : room :=
  mkRoom (owner r) (clients r) (quiz r) (state r) (rtimer r) (Some f).

(** [[room.owner, ...room.clients]] *)
Definition everyone (r : room) : list participant := owner r :: clients r.

(** ** Decimal [toString] of a non-negative integer *)

Definition digit_char (d : Z) : Ascii.ascii := Ascii.ascii_of_nat (48 + Z.to_nat d).

Fixpoint dec_aux (fuel : nat) (z : Z) (acc : string) : string :=
  match fuel with
  | O => acc
  | S f =>
      let acc' := String (digit_char (z mod 10)) acc in
      if Z.ltb z 10 then acc' else dec_aux f (z / 10) acc'
  end.

(** [z.toString()] for the codes of this program ([1000 <= z <= 9999]);
    the fuel covers every integer below 10^32. *)
Definition Z_to_dec (z : Z) : string := dec_aux 32 z "".

(** [Math.floor(1000 + Math.random() * 9000)] with [Math.random() = n / 2^53]. *)
Definition code_of_random (n : Z) : Z := (1000 + (9000 * n) / 2 ^ 53)%Z.

(** ** [deleteRoom(roomCode)] *)
Definition deleteRoom (code : string) : M unit :=
  s <- get ;;
  match rooms_get (rooms s) code with
  | Absent => ret tt
  | Inherited => ret tt   (* no timer on the inherited value; [delete] of a non-own key does nothing *)
  | Own r =>
      match rtimer r with
      | Some t => clearInterval (interval t) ;;; set_room code (r_with_timer r None)
      | None => ret tt
      end ;;;
      del_room code
  end.

(** ** [leaveRoom(ws)] *)
Definition leaveRoom (ws : nat) : M unit :=
  s <- get ;;
  match field (croom (conn_of s ws)) with
  | None => ret tt
  | Some code =>
      match rooms_get (rooms s) code with
      | Absent => set_croom ws None
      | Inherited => throw   (* room.clients.filter on undefined *)
      | Own r =>
          (if Nat.eqb (pws (owner r)) ws then
             forEach (clients r) (fun c =>
               safeSend (pws c) MRoomClosed ;;; set_croom (pws c) None) ;;;
             match rtimer r with
             | Some t => clearInterval (interval t) ;;; set_room code (r_with_timer r None)
             | None => ret tt
             end ;;;
             del_room code
           else
             set_room code (r_with_clients r
               (filter (fun c => pws c ≠ ws) (clients r)))) ;;;
          set_croom ws None ;;;
          set_cemail ws None
      end
  end.

(** ** Inbound requests ([{ action, body }] after [JSON.parse])

    The message is a JSON object whose [action] is a string; the string
    fields of the body are strings or absent. JSON values on which the
    handler's own string conversions or destructuring throw (the message
    [null], an object with a non-callable [toString] as action or room
    code) are not represented. *)

Inductive request :=
| Create (userEmail quizData : option string)
| Join (roomCode userEmail username : option string)
| StartSession (roomCode : option string) (timerSeconds : option jnum)
| Reconnect (roomCode userEmail : option string)
| DeleteRoomReq (roomCode : option string)
| LeaveRoomReq
| FinishQuiz (roomCode userEmail : option string) (score : option jnum)
| Message (body : option string)
| Unknown (action : string).

(** The [do { ... } while (rooms[roomCode])] loop; one iteration per
    [Math.random()] value. *)
Fixpoint gen_code (fuel : nat) : M string :=
  match fuel with
  | O => throw
  | S f =>
      n <- random ;;
      let code := Z_to_dec (code_of_random n) in
      s <- get ;;
      match rooms_get (rooms s) code with
      | Absent => ret code
      | _ => gen_code f
      end
  end.

(** CREATE ROOM *)
Definition do_create (ws : nat) (userEmail quizData : option string) : M unit :=
  leaveRoom ws ;;;
  match field userEmail with
  | None => safeSend ws (MError "userEmail required to create room")
  | Some e =>
      set_cemail ws (Some e) ;;;
      s <- get ;;
      code <- gen_code (length (rng s)) ;;
      set_croom ws (Some code) ;;;
      set_room code (mkRoom (mkP ws e) [] (field quizData) Waiting None None) ;;;
      safeSend ws (MCreated code (field quizData))
  end.

(** [room.clients.find(c => c.email === userEmail)], as an index. *)
Definition find_email (cs : list participant) (e : string) : option nat :=
  list_find (fun c => pemail c = e) cs ≫= fun p => Some p.1.

(** The roster after [existing.ws = ws] or [room.clients.push({ ws, email })]. *)
Definition rebind_or_push (cs : list participant) (ws : nat) (e : string) : list participant :=
  match find_email cs e with
  | Some i => <[i := mkP ws e]> cs
  | None => cs ++ [mkP ws e]
  end.

(** JOIN ROOM *)
Definition do_join (ws : nat) (roomCode userEmail username : option string) : M unit :=
  leaveRoom ws ;;;
  match field roomCode, field userEmail with
  | Some code, Some e =>
      s <- get ;;
      match rooms_get (rooms s) code with
      | Absent => safeSend ws (MError "Room does not exist")
      | Inherited =>
          (* room.state is undefined; the tags are set, then room.clients.find throws *)
          set_cemail ws (Some e) ;;; set_croom ws (Some code) ;;; throw
      | Own r =>
          if decide (state r = Started) then
            safeSend ws (MError "Session already started, cannot join")
          else
            set_cemail ws (Some e) ;;;
            set_croom ws (Some code) ;;;
            let r' := r_with_clients r (rebind_or_push (clients r) ws e) in
            set_room code r' ;;;
            safeSend ws (MJoined code (quiz r')) ;;;
            forEach (everyone r') (fun c =>
              if Nat.eqb (pws c) ws then ret tt
              else safeSend (pws c) (MUserJoined e username))
      end
  | _, _ => safeSend ws (MError "roomCode and userEmail required to join")
  end.

(** [typeof timerSeconds === "number" ? Math.max(1, Math.floor(timerSeconds)) : 60] *)
Definition duration (timerSeconds : option jnum) : jnum :=
  match timerSeconds with
  | Some x => js_max1 (js_floor x)
  | None => jint 60
  end.

(** START SESSION *)
Definition do_startSession (ws : nat) (roomCode : option string) (timerSeconds : option jnum) : M unit :=
  s <- get ;;
  let code := key_of roomCode in
  match rooms_get (rooms s) code with
  | Absent => safeSend ws (MError "Room does not exist")
  | Inherited => safeSend ws (MError "Only the owner can start the session")
  | Own r =>
      if negb (Nat.eqb (pws (owner r)) ws) then
        safeSend ws (MError "Only the owner can start the session")
      else
        let d := duration timerSeconds in
        let r1 := r_with_state r Started in
        set_room code r1 ;;;
        forEach (everyone r1) (fun c =>
          safeSend (pws c)
            (MSessionStarted (String.eqb (pemail c) (pemail (owner r1))) (quiz r1) d)) ;;;
        match rtimer r1 with
        | Some t => clearInterval (interval t)
        | None => ret tt
        end ;;;
        i <- setInterval code ;;
        set_room code (r_with_timer r1 (Some (mkT d i)))
  end.

(** The interval callback of a session timer for [roomCode]. *)
Definition tick (code : string) : M unit :=
  s <- get ;;
  match rooms_get (rooms s) code with
  | Absent => ret tt
  | Inherited => throw                  (* r.timer is undefined *)
  | Own r =>
      match rtimer r with
      | None => throw                   (* r.timer is null *)
      | Some t =>
          let t' := js_dec (timeRemaining t) in
          let r1 := r_with_timer r (Some (mkT t' (interval t))) in
          set_room code r1 ;;;
          broadcast (everyone r1) (MTimerTick t') ;;;
          if js_le0 t' then
            clearInterval (interval t) ;;;
            set_room code (r_with_state (r_with_timer r1 None) Ended) ;;;
            broadcast (everyone r1) MSessionEnded
          else ret tt
      end
  end.

(** [room.timer?.timeRemaining || null] *)
Definition time_or_null (r : room) : option jnum :=
  match rtimer r with
  | Some t => if js_truthy_num (timeRemaining t) then Some (timeRemaining t) else None
  | None => None
  end.

(** RECONNECT *)
Definition do_reconnect (ws : nat) (roomCode userEmail : option string) : M unit :=
  match field roomCode, field userEmail with
  | Some code, Some e =>
      s <- get ;;
      match rooms_get (rooms s) code with
      | Absent => safeSend ws (MError "Room does not exist")
      | Inherited =>
          (* room.state is undefined; the tags are set, then room.owner.email throws *)
          set_cemail ws (Some e) ;;; set_croom ws (Some code) ;;; throw
      | Own r =>
          if decide (state r = Ended) then
            safeSend ws (MError "Room already ended")
          else
            set_cemail ws (Some e) ;;;
            set_croom ws (Some code) ;;;
            if String.eqb (pemail (owner r)) e then
              let r' := r_with_owner r (mkP ws (pemail (owner r))) in
              set_room code r' ;;;
              safeSend ws (MReconnected (quiz r') "owner" (state r') (time_or_null r'))
            else
              let r' := r_with_clients r (rebind_or_push (clients r) ws e) in
              set_room code r' ;;;
              safeSend ws (MReconnected (quiz r') "client" (state r') (time_or_null r'))
      end
  | _, _ => safeSend ws (MError "roomCode and userEmail required to reconnect")
  end.

(** DELETE ROOM (owner only) *)
Definition do_deleteRoom (ws : nat) (roomCode : option string) : M unit :=
  match field roomCode with
  | None => safeSend ws (MError "roomCode required to delete room")
  | Some code =>
      s <- get ;;
      match rooms_get (rooms s) code with
      | Absent => safeSend ws (MError "Room does not exist")
      | Inherited => throw                 (* room.owner.ws on undefined *)
      | Own r =>
          if negb (Nat.eqb (pws (owner r)) ws) then
            safeSend ws (MError "Only the owner can delete the room")
          else
            forEach (everyone r) (fun c =>
              safeSend (pws c) (MRoomDeleted code (Nat.eqb (pws c) (pws (owner r))))) ;;;
            deleteRoom code
      end
  end.

(** LEAVE ROOM (client only) *)
Definition do_leaveRoom (ws : nat) : M unit :=
  s <- get ;;
  match field (croom (conn_of s ws)) with
  | None => safeSend ws (MError "You are not in a room")
  | Some code =>
      match rooms_get (rooms s) code with
      | Absent => set_croom ws None ;;; safeSend ws (MError "Room no longer exists")
      | Inherited => throw                 (* room.owner.ws on undefined *)
      | Own r =>
          if Nat.eqb (pws (owner r)) ws then
            safeSend ws (MError "Owner cannot leave. Use deleteRoom instead.")
          else
            let r' := r_with_clients r (filter (fun c => pws c ≠ ws) (clients r)) in
            set_room code r' ;;;
            broadcast (everyone r') (MUserLeft (clients r')) ;;;
            safeSend ws (MLeftRoom code) ;;;
            set_croom ws None ;;;
            set_cemail ws None
      end
  end.

(** [obj[k] = v] on a plain object with a number [v]: the inherited
    [__proto__] setter ignores a value that is not an object. *)
Definition js_set_num (o : gmap string jnum) (k : string) (v : jnum) : gmap string jnum :=
  if String.eqb k "__proto__" then o else <[k := v]> o.

(** FINISH QUIZ *)
Definition do_finishQuiz (ws : nat) (roomCode userEmail : option string) (score : option jnum) : M unit :=
  match field roomCode, field userEmail, score with
  | Some code, Some e, Some sc =>
      s <- get ;;
      match rooms_get (rooms s) code with
      | Absent => safeSend ws (MError "Room does not exist")
      | Inherited => throw                 (* room.owner.ws on undefined *)
      | Own r =>
          let f0 := match finished r with Some f => f | None => ∅ end in
          let r' := r_with_finished r (js_set_num f0 e sc) in
          set_room code r' ;;;
          let t := match rtimer r' with
                   | Some t => if js_truthy_num (timeRemaining t) then timeRemaining t else jint 0
                   | None => jint 0
                   end in
          safeSend (pws (owner r')) (MUserFinished e sc t)
      end
  | _, _, _ => safeSend ws (MError "roomCode, userEmail, and numeric score required")
  end.

(** SEND MESSAGE *)
Definition do_message (ws : nat) (body : option string) : M unit :=
  s <- get ;;
  match field (croom (conn_of s ws)) with
  | None => safeSend ws (MError "You are not in a room")
  | Some code =>
      match rooms_get (rooms s) code with
      | Absent => safeSend ws (MError "You are not in a room")
      | Inherited => throw                 (* spreading undefined room.clients *)
      | Own r => broadcast (everyone r) (MRelay body)
      end
  end.

(** The [ws.on("message")] handler after parsing. *)
Definition handle (ws : nat) (req : request) : M unit :=
  match req with
  | Create e q => do_create ws e q
  | Join c e u => do_join ws c e u
  | StartSession c t => do_startSession ws c t
  | Reconnect c e => do_reconnect ws c e
  | DeleteRoomReq c => do_deleteRoom ws c
  | LeaveRoomReq => do_leaveRoom ws
  | FinishQuiz c e sc => do_finishQuiz ws c e sc
  | Message b => do_message ws b
  | Unknown a => safeSend ws (MError ("Unknown action: " ++ a))
  end.

(** ** Events of the server *)

Inductive event :=
| Connect (ws : nat)              (* wss.on("connection") *)
| Recv (ws : nat) (req : request) (* ws.on("message") *)
| Close (ws : nat)                (* ws.on("close") *)
| Error (ws : nat)                (* ws.on("error") *)
| Fire (i : nat).                 (* an interval callback runs *)

Definition run_event (e : event) : M unit :=
  match e with
  | Connect ws => set_croom ws None ;;; set_cemail ws None
  | Recv ws req => handle ws req
  | Close ws => leaveRoom ws
  | Error ws => leaveRoom ws
  | Fire i =>
      s <- get ;;
      match list_find (fun p => p.1 = i) (intervals s) with
      | Some (_, (_, code)) => tick code
      | None => ret tt               (* a cleared interval never runs *)
      end
  end.

(** One event processed to completion. *)
Definition step (s : sys) (e : event) : option (sys * list out) :=
  match run_event e s with
  | Some (_, s', o) => Some (s', o)
  | None => None
  end.

Definition init (rs : list Z) : sys := mkSys ∅ ∅ [] 0 rs.

(** A valid [Math.random()] value [n / 2^53], [0 <= n < 2^53]. *)
Definition valid_random (n : Z) : Prop := (0 <= n < 2 ^ 53)%Z.

Inductive reachable : sys -> Prop :=
| reach_init rs : Forall valid_random rs -> reachable (init rs)
| reach_step s e s' o : reachable s -> step s e = Some (s', o) -> reachable s'.

(** Running a list of events. *)
Fixpoint run (s : sys) (es : list event) : option (sys * list out) :=
  match es with
  | [] => Some (s, [])
  | e :: es' =>
      match step s e with
      | None => None
      | Some (s1, o1) =>
          match run s1 es' with
          | None => None
          | Some (s2, o2) => Some (s2, (o1 ++ o2)%list)
          end
      end
  end.

(** A string of exactly four decimal digits. *)
Definition is_digit (a : Ascii.ascii) : bool :=
  (48 <=? Ascii.nat_of_ascii a)%nat && (Ascii.nat_of_ascii a <=? 57)%nat.
Fixpoint all_digits (s : string) : bool :=
  match s with
  | EmptyString => true
  | String a s' => is_digit a && all_digits s'
  end.
Definition four_digits (s : string) : bool := (String.length s =? 4)%nat && all_digits s.

(** ** Notions used by the proofs, and concrete runs *)

(** Operations that touch only the connection tags. *)
Definition conns_only {A} (m : M A) : Prop :=
  forall s a s' o, m s = Some (a, s', o) ->
    rooms s' = rooms s /\ intervals s' = intervals s /\ next_iv s' = next_iv s /\ rng s' = rng s.

(** The room-level effect of [leaveRoom]: each room is kept, deleted, or
    keeps everything but its roster. *)
Definition room_kept_or_left (m m' : gmap string room) : Prop :=
  forall c, m' !! c = m !! c \/ m' !! c = None \/
            exists r cs, m !! c = Some r /\ m' !! c = Some (r_with_clients r cs).

(** Invariant of reachable states: a room with a timer is started, and no
    room is stored under a key that [rooms] also inherits. *)
Definition timer_started (r : room) : Prop := rtimer r <> None -> state r = Started.

Definition Inv_rooms (m : gmap string room) : Prop :=
  forall c r, m !! c = Some r -> timer_started r /\ c ∉ inherited_keys.

Definition Inv (s : sys) : Prop := Inv_rooms (rooms s).

(** Every room of [m'] is a room of [m] under the same code, with the same
    state, and a timer only if the old room had one or was started. *)
Definition derived (m m' : gmap string room) : Prop :=
  forall c r', m' !! c = Some r' ->
    exists r, m !! c = Some r /\ state r' = state r /\ (timer_started r -> timer_started r').

(** A first bound on how one event may change the state field of the
    room stored under [c], kept by the invariant proof. *)
Definition state_change_coarse (e : event) (c : string) (r r' : room) : Prop :=
  state r' = state r
  \/ (state r' = Started /\
      exists ws rc t, e = Recv ws (StartSession rc t) /\ key_of rc = c /\ pws (owner r) = ws)
  \/ (state r = Started /\ state r' = Ended /\ exists i, e = Fire i)
  \/ (state r' = Waiting /\ exists ws em q, e = Recv ws (Create em q)).

(** How the event [e], processed in the state [s], may change the state
    field of the room [r] stored under [c] into that of [r']: not at all;
    to started, by the owner's startSession for [c]; from started to
    ended, by the firing of the interval registered for [c] whose
    decremented remaining time is [<= 0]; or to waiting, by a create of
    the owner of [r] whose room tag is [c] (its leaveRoom deletes [r]),
    which stores a new room without clients or timer under [c]. *)
Definition state_change_allowed (s : sys) (e : event) (c : string) (r r' : room) : Prop :=
  state r' = state r
  \/ (state r' = Started /\
      exists ws rc t, e = Recv ws (StartSession rc t) /\ key_of rc = c /\ pws (owner r) = ws)
  \/ (state r = Started /\ state r' = Ended /\
      exists i k t, e = Fire i /\ list_find (fun p => p.1 = i) (intervals s) = Some (k, (i, c)) /\
        rtimer r = Some t /\ js_le0 (js_dec (timeRemaining t)) = true /\
        r' = r_with_state (r_with_timer r None) Ended)
  \/ (state r' = Waiting /\
      exists ws em q e0, e = Recv ws (Create em q) /\ field em = Some e0 /\
        field (croom (conn_of s ws)) = Some c /\ pws (owner r) = ws /\
        r' = mkRoom (mkP ws e0) [] (field q) Waiting None None).

(** The state after running [es] from the initial state with the random stream [rs]. *)
Definition after (rs : list Z) (es : list event) : sys :=
  match run (init rs) es with Some (s, _) => s | None => init rs end.

(** The state and the outputs of one step. *)
Definition post (s : sys) (e : event) : sys :=
  match step s e with Some (s', _) => s' | None => s end.
Definition outs (s : sys) (e : event) : list out :=
  match step s e with Some (_, o) => o | None => [] end.

(** Owner 1 ("a@x") creates room "1000" with quiz "quiz"; connection 2 is open. *)
Definition ev_created : list event :=
  [Connect 1; Connect 2; Recv 1 (Create (Some "a@x") (Some "quiz"))].

(** ... then "b@x" joins on connection 2 and the owner starts a 1-second session. *)
Definition ev_started : list event :=
  ev_created ++ [Recv 2 (Join (Some "1000") (Some "b@x") None);
                 Recv 1 (StartSession (Some "1000") (Some (jint 1)))].

(** ... then the timer fires once and the session ends. *)
Definition ev_ended : list event := ev_started ++ [Fire 0].

(** The states after these runs, with [Math.random()] returning 0. *)
Definition s_created := after [0%Z] ev_created.
Definition s_started := after [0%Z] ev_started.
Definition s_ended := after [0%Z] ev_ended.

(** Invariant of reachable states: no connection's room tag names an
    inherited key. *)
Definition croom_ok (k : conn) : Prop :=
  forall c, croom k = Some c -> c ∉ inherited_keys.

Definition Inv_conns (s : sys) : Prop := forall ws k, conns s !! ws = Some k -> croom_ok k.

(** A computation that never throws. *)
Definition total (m : M unit) : Prop := forall s, exists s' o, m s = Some (tt, s', o).

(** An error reply. *)
Definition is_error (m : msg) : bool := match m with MError _ => true | _ => false end.

(** Outputs that carry no error reply. *)
Definition quiet (o : list out) : Prop := Forall (fun p => is_error p.2 = false) o.

(** Roster invariant: no email appears twice among a room's clients. *)
Definition roster_ok (r : room) : Prop := NoDup (map pemail (clients r)).
Definition Rost (m : gmap string room) : Prop := forall c r, m !! c = Some r -> roster_ok r.

(** Every registered interval [(i, c)] belongs to a room [c] whose timer
    holds the handle [i]. *)
Definition Ivl_on (m : gmap string room) (l : list (nat * string)) : Prop :=
  forall i c, (i, c) ∈ l -> exists r t, m !! c = Some r /\ rtimer r = Some t /\ interval t = i.

(** The room code a request names, for the requests that look one up by a
    code taken from the request body. *)
Definition request_code (req : request) : option string :=
  match req with
  | Join rc _ _ | Reconnect rc _ | DeleteRoomReq rc | FinishQuiz rc _ _ => rc
  | _ => None
  end.

(** * Proofs *)

(** ** Monad inversion *)

Lemma bind_inv {A B} (m : M A) (k : A -> M B) s b s2 o :
  bind m k s = Some (b, s2, o) ->
  exists a s1 o1 o2, m s = Some (a, s1, o1) /\ k a s1 = Some (b, s2, o2) /\ o = (o1 ++ o2)%list.
Proof.
  unfold bind. destruct (m s) as [[[a s1] o1]|]; [|discriminate].
  destruct (k a s1) as [[[b' s2'] o2]|] eqn:E; [|discriminate].
  intros H. injection H as <- <- <-. eauto 10.
Qed.

Lemma bind_Some {A B} (m : M A) (k : A -> M B) s a s1 o1 b s2 o2 :
  m s = Some (a, s1, o1) -> k a s1 = Some (b, s2, o2) ->
  bind m k s = Some (b, s2, (o1 ++ o2)%list).
Proof. intros H1 H2. unfold bind. rewrite H1, H2. reflexivity. Qed.

Lemma bind_None_l {A B} (m : M A) (k : A -> M B) s :
  m s = None -> bind m k s = None.
Proof. intros H. unfold bind. rewrite H. reflexivity. Qed.

Ltac minv_step :=
  match goal with
  | H : bind _ _ _ = Some _ |- _ =>
      apply bind_inv in H; destruct H as (? & ? & ? & ? & ? & H & ?); cbv beta in H
  | H : get _ = Some _ |- _ => injection H; clear H; intros; subst
  | H : ret _ _ = Some _ |- _ => injection H; clear H; intros; subst
  | H : modify _ _ = Some _ |- _ => injection H; clear H; intros; subst
  | H : safeSend _ _ _ = Some _ |- _ => injection H; clear H; intros; subst
  | H : set_room _ _ _ = Some _ |- _ => injection H; clear H; intros; subst
  | H : del_room _ _ = Some _ |- _ => injection H; clear H; intros; subst
  | H : set_croom _ _ _ = Some _ |- _ => injection H; clear H; intros; subst
  | H : set_cemail _ _ _ = Some _ |- _ => injection H; clear H; intros; subst
  | H : clearInterval _ _ = Some _ |- _ => injection H; clear H; intros; subst
  | H : setInterval _ _ = Some _ |- _ => injection H; clear H; intros; subst
  | H : throw _ = Some _ |- _ => discriminate H
  | H : (match ?x with _ => _ end) _ = Some _ |- _ => destruct x eqn:?
  | H : match ?x with _ => _ end = Some _ |- _ => destruct x eqn:?
  end.

Ltac minv := repeat minv_step.

(** ** Loops *)

Lemma forEach_outputs {A} (l : list A) (f : A -> M unit) (g : A -> list out) s :
  (forall x s, f x s = Some (tt, s, g x)) ->
  forEach l f s = Some (tt, s, flat_map g l).
Proof.
  intros Hf. induction l as [|x l IH]; simpl; [reflexivity|].
  eapply bind_Some; [apply Hf|]. rewrite IH. reflexivity.
Qed.

Lemma forEach_pure {A} (l : list A) (f : A -> M unit) s a s' o :
  (forall x s, exists g, f x s = Some (tt, s, g)) ->
  forEach l f s = Some (a, s', o) -> s' = s.
Proof.
  intros Hf. revert s a s' o. induction l as [|x l IH]; simpl; intros s a s' o H.
  - injection H; intros; subst; reflexivity.
  - apply bind_inv in H. destruct H as (b & s1 & o1 & o2 & H1 & H2 & _).
    destruct (Hf x s) as [g Hg]. rewrite Hg in H1. injection H1; intros; subst.
    eapply IH; eassumption.
Qed.

Lemma broadcast_outputs ps m s :
  broadcast ps m s = Some (tt, s, map (fun p => (pws p, m)) ps).
Proof.
  unfold broadcast. induction ps as [|p ps IH]; simpl; [reflexivity|].
  cbn [bind safeSend]. rewrite IH. reflexivity.
Qed.

Lemma broadcast_inv ps m s a s' o :
  broadcast ps m s = Some (a, s', o) -> s' = s /\ o = map (fun p => (pws p, m)) ps.
Proof. rewrite broadcast_outputs. intros H. injection H; intros; subst; auto. Qed.

Lemma forEach_conns_only {A} (l : list A) (f : A -> M unit) :
  (forall x, conns_only (f x)) -> conns_only (forEach l f).
Proof.
  intros Hf. induction l as [|x l IH]; simpl; intros s a s' o H.
  - injection H; intros; subst; auto.
  - apply bind_inv in H. destruct H as (b & s1 & o1 & o2 & H1 & H2 & _).
    destruct (Hf x _ _ _ _ H1) as (? & ? & ? & ?).
    destruct (IH _ _ _ _ H2) as (? & ? & ? & ?). repeat split; congruence.
Qed.

Lemma close_notice_conns_only (c : participant) :
  conns_only (safeSend (pws c) MRoomClosed ;;; set_croom (pws c) None).
Proof. intros s a s' o H. minv. simpl. auto. Qed.

(** ** [leaveRoom] *)

Lemma rooms_get_Own m k r : rooms_get m k = Own r -> m !! k = Some r.
Proof. unfold rooms_get. destruct (m !! k); [congruence|]. case_bool_decide; discriminate. Qed.

Lemma rooms_get_Absent m k : rooms_get m k = Absent -> m !! k = None /\ k ∉ inherited_keys.
Proof.
  unfold rooms_get. destruct (m !! k); [discriminate|]. case_bool_decide; [discriminate|]. auto.
Qed.

Lemma rooms_get_Inherited m k : rooms_get m k = Inherited -> m !! k = None /\ k ∈ inherited_keys.
Proof.
  unfold rooms_get. destruct (m !! k); [discriminate|]. case_bool_decide; [|discriminate]. auto.
Qed.

Lemma rooms_get_of_None m k : m !! k = None -> k ∉ inherited_keys -> rooms_get m k = Absent.
Proof. intros H1 H2. unfold rooms_get. rewrite H1. case_bool_decide; [contradiction|reflexivity]. Qed.

Lemma rooms_get_of_Some m k r : m !! k = Some r -> rooms_get m k = Own r.
Proof. intros H. unfold rooms_get. rewrite H. reflexivity. Qed.

Lemma room_kept_or_left_refl m : room_kept_or_left m m.
Proof. intros c. auto. Qed.

Lemma room_kept_or_left_delete m k : room_kept_or_left m (delete k m).
Proof.
  intros c. destruct (decide (c = k)) as [->|Hne].
  - right; left. apply lookup_delete_eq.
  - left. by rewrite lookup_delete_ne.
Qed.

Lemma room_kept_or_left_clients m k r cs :
  m !! k = Some r -> room_kept_or_left m (<[k := r_with_clients r cs]> m).
Proof.
  intros Hk c. destruct (decide (c = k)) as [->|Hne].
  - right; right. exists r, cs. rewrite lookup_insert_eq. auto.
  - left. by rewrite lookup_insert_ne.
Qed.

Lemma leaveRoom_rooms ws s a s1 o :
  leaveRoom ws s = Some (a, s1, o) ->
  room_kept_or_left (rooms s) (rooms s1) /\ next_iv s1 = next_iv s /\ rng s1 = rng s.
Proof.
  unfold leaveRoom. intros H. minv; simpl in *;
    repeat match goal with
    | H : forEach _ _ _ = Some _ |- _ =>
        destruct (forEach_conns_only _ _ close_notice_conns_only _ _ _ _ H) as (Hr & _ & Hn & Hg);
        clear H; rewrite ?Hr, ?Hn, ?Hg
    | H : rooms_get _ _ = Own _ |- _ => apply rooms_get_Own in H
    end;
    (split; [|split; reflexivity]).
  - rewrite delete_insert_eq. apply room_kept_or_left_delete.
  - apply room_kept_or_left_delete.
  - by apply room_kept_or_left_clients.
  - apply room_kept_or_left_refl.
  - apply room_kept_or_left_refl.
Qed.

Lemma leaveRoom_untagged ws s :
  field (croom (conn_of s ws)) = None -> leaveRoom ws s = Some (tt, s, []).
Proof. intros H. unfold leaveRoom. cbn [bind get]. rewrite H. reflexivity. Qed.

(** ** The room-code loop *)

Lemma gen_code_spec fuel s code s' o :
  gen_code fuel s = Some (code, s', o) ->
  rooms s' = rooms s /\ conns s' = conns s /\ intervals s' = intervals s /\
  next_iv s' = next_iv s /\ o = [] /\
  rooms_get (rooms s) code = Absent /\
  exists n, n ∈ rng s /\ code = Z_to_dec (code_of_random n) /\
  forall m, m ∈ rng s' -> m ∈ rng s.
Proof.
  revert s o. induction fuel as [|f IH]; intros s o H; simpl in H; [discriminate|].
  apply bind_inv in H. destruct H as (n & s1 & o1 & o2 & Hr & H & ->).
  unfold random in Hr. destruct (rng s) as [|n0 rest] eqn:Hrng; [discriminate|].
  injection Hr; intros; subst. cbv beta in H. minv; simpl in *.
  1, 2: destruct (IH _ _ H) as (Hro & Hco & Hiv & Hnx & Ho & Hab & n1 & Hn1 & Hc & Hsub);
    simpl in *; repeat split; try congruence;
    [exists n1; split; [by right|]; split; [assumption|]; intros m Hm; right; auto].
  repeat split; auto. eexists. split; [left|]. split; [reflexivity|].
  intros m Hm. by right.
Qed.

Lemma deleteRoom_rooms code s a s' o :
  deleteRoom code s = Some (a, s', o) ->
  rooms s' = delete code (rooms s) /\ next_iv s' = next_iv s /\ rng s' = rng s.
Proof.
  unfold deleteRoom. intros H. minv; simpl in *; (split; [|split; reflexivity]).
  - by rewrite delete_insert_eq.
  - reflexivity.
  - apply rooms_get_Inherited in Heql as [Hn _]. by rewrite delete_id.
  - apply rooms_get_Absent in Heql as [Hn _]. by rewrite delete_id.
Qed.

Ltac frames :=
  repeat match goal with
  | H : leaveRoom _ _ = Some _ |- _ =>
      let HL := fresh "HL" in let Hn := fresh "Hn" in let Hg := fresh "Hg" in
      destruct (leaveRoom_rooms _ _ _ _ _ H) as (HL & Hn & Hg); clear H
  | H : deleteRoom _ _ = Some _ |- _ =>
      let HD := fresh "HD" in let Hn := fresh "Hn" in let Hg := fresh "Hg" in
      destruct (deleteRoom_rooms _ _ _ _ _ H) as (HD & Hn & Hg); clear H
  | H : gen_code _ _ = Some _ |- _ =>
      let Hro := fresh "Hro" in let Hab := fresh "Hab" in
      destruct (gen_code_spec _ _ _ _ _ H) as (Hro & _ & _ & _ & _ & Hab & _); clear H
  | H : forEach _ _ _ = Some _ |- _ =>
      apply forEach_pure in H;
        [subst | intros ? ?; cbv beta; repeat case_match; eexists; reflexivity]
  | H : broadcast _ _ _ = Some _ |- _ => apply broadcast_inv in H; destruct H as [? ?]; subst
  | H : rooms_get _ _ = Own _ |- _ => apply rooms_get_Own in H
  end.

Lemma step_run_event s e s' o :
  step s e = Some (s', o) -> exists a, run_event e s = Some (a, s', o).
Proof.
  unfold step. destruct (run_event e s) as [[[a s1] o1]|]; [|discriminate].
  intros H. injection H; intros; subst. eauto.
Qed.

Ltac unfold_handlers :=
  unfold run_event, handle, do_create, do_join, do_startSession, do_reconnect,
    do_deleteRoom, do_leaveRoom, do_finishQuiz, do_message, tick in *.

(** ** Invariant of reachable states *)

Lemma derived_refl m : derived m m.
Proof. intros c r' H. eauto. Qed.

Lemma derived_trans m1 m2 m3 : derived m1 m2 -> derived m2 m3 -> derived m1 m3.
Proof.
  intros H12 H23 c r3 H3. destruct (H23 _ _ H3) as (r2 & H2 & Hs2 & Ht2).
  destruct (H12 _ _ H2) as (r1 & H1 & Hs1 & Ht1). exists r1. split; [done|].
  split; [congruence|]. auto.
Qed.

Lemma derived_delete m k : derived m (delete k m).
Proof.
  intros c r' H. destruct (decide (c = k)) as [->|Hne].
  - by rewrite lookup_delete_eq in H.
  - rewrite lookup_delete_ne in H by done. eauto.
Qed.

Lemma derived_insert m k r r' :
  m !! k = Some r -> state r' = state r -> (timer_started r -> timer_started r') ->
  derived m (<[k := r']> m).
Proof.
  intros Hk Hs Ht c r2 H. destruct (decide (c = k)) as [->|Hne].
  - rewrite lookup_insert_eq in H. injection H as <-. eauto.
  - rewrite lookup_insert_ne in H by done. eauto.
Qed.

Lemma derived_kept_or_left m m' : room_kept_or_left m m' -> derived m m'.
Proof.
  intros H c r' Hc. destruct (H c) as [E|[E|(r & cs & E1 & E2)]].
  - rewrite Hc in E. eauto.
  - rewrite Hc in E. discriminate.
  - rewrite Hc in E2. injection E2 as E2. subst r'. exists r. split; [done|]. split; [reflexivity|]. auto.
Qed.

Lemma derived_Inv m m' : Inv_rooms m -> derived m m' -> Inv_rooms m'.
Proof.
  intros HI HD c r' H. destruct (HD _ _ H) as (r & Hr & Hs & Ht).
  destruct (HI _ _ Hr) as [Htr Hc]. auto.
Qed.

Lemma derived_states m m' c r r' :
  derived m m' -> m !! c = Some r -> m' !! c = Some r' -> state r' = state r.
Proof. intros HD H1 H2. destruct (HD _ _ H2) as (r0 & H0 & Hs & _). congruence. Qed.

Ltac derive_tac :=
  repeat first
    [ apply derived_refl
    | apply derived_delete
    | match goal with
      | |- derived ?m (<[_ := _]> ?m) => eapply derived_insert; [eassumption|reflexivity|exact (fun H => H)]
      | |- derived ?m (delete _ (<[_ := _]> ?m)) => rewrite delete_insert_eq
      | |- derived ?m (delete _ ?m') => eapply derived_trans; [|apply derived_delete]
      | H : room_kept_or_left ?m ?m' |- derived ?m ?m' => by apply derived_kept_or_left
      | H : room_kept_or_left ?m ?m1 |- derived ?m (<[_ := _]> ?m1) =>
          eapply derived_trans; [by apply derived_kept_or_left|]
      end ].

Lemma create_rooms ws em q s a s' o :
  do_create ws em q s = Some (a, s', o) ->
  derived (rooms s) (rooms s') \/
  exists m1 code r, derived (rooms s) m1 /\ m1 !! code = None /\ (code ∉ inherited_keys) /\
    rooms s' = <[code := r]> m1 /\ state r = Waiting /\ rtimer r = None.
Proof.
  unfold do_create. intros H. minv; frames; simpl in *.
  - right. apply rooms_get_Absent in Hab as [Hab1 Hab2]. simpl in *. rewrite Hro in *.
    do 3 eexists. split; [by apply derived_kept_or_left|]. eauto.
  - left. by apply derived_kept_or_left.
Qed.

Lemma join_rooms ws rc em un s a s' o :
  do_join ws rc em un s = Some (a, s', o) -> derived (rooms s) (rooms s').
Proof. unfold do_join. intros H. minv; frames; simpl in *; derive_tac. Qed.

Lemma reconnect_rooms ws rc em s a s' o :
  do_reconnect ws rc em s = Some (a, s', o) -> derived (rooms s) (rooms s').
Proof. unfold do_reconnect. intros H. minv; frames; simpl in *; derive_tac. Qed.

Lemma deleteRoom_req_rooms ws rc s a s' o :
  do_deleteRoom ws rc s = Some (a, s', o) -> derived (rooms s) (rooms s').
Proof. unfold do_deleteRoom. intros H. minv; frames; simpl in *; rewrite ?HD; derive_tac. Qed.

Lemma leaveRoom_req_rooms ws s a s' o :
  do_leaveRoom ws s = Some (a, s', o) -> derived (rooms s) (rooms s').
Proof. unfold do_leaveRoom. intros H. minv; frames; simpl in *; derive_tac. Qed.

Lemma finishQuiz_rooms ws rc em sc s a s' o :
  do_finishQuiz ws rc em sc s = Some (a, s', o) -> derived (rooms s) (rooms s').
Proof. unfold do_finishQuiz. intros H. minv; frames; simpl in *; derive_tac. Qed.

Lemma message_rooms ws b s a s' o :
  do_message ws b s = Some (a, s', o) -> derived (rooms s) (rooms s').
Proof. unfold do_message. intros H. minv; frames; simpl in *; derive_tac. Qed.

Lemma startSession_rooms ws rc t s a s' o :
  do_startSession ws rc t s = Some (a, s', o) ->
  rooms s' = rooms s \/
  exists r i, rooms s !! key_of rc = Some r /\ pws (owner r) = ws /\
    rooms s' = <[key_of rc := r_with_timer (r_with_state r Started) (Some (mkT (duration t) i))]> (rooms s).
Proof.
  unfold do_startSession. intros H. minv; frames; simpl in *; auto.
  - right. do 2 eexists. split; [eassumption|]. split; [by apply Nat.eqb_eq, negb_false_iff|].
    by rewrite insert_insert_eq.
  - right. do 2 eexists. split; [eassumption|]. split; [by apply Nat.eqb_eq, negb_false_iff|].
    by rewrite insert_insert_eq.
Qed.

Lemma tick_rooms code s a s' o :
  tick code s = Some (a, s', o) ->
  rooms s' = rooms s \/
  exists r t, rooms s !! code = Some r /\ rtimer r = Some t /\
    (rooms s' = <[code := r_with_timer r (Some (mkT (js_dec (timeRemaining t)) (interval t)))]> (rooms s) \/
     rooms s' = <[code := r_with_state (r_with_timer r None) Ended]> (rooms s)).
Proof.
  unfold tick. intros H. minv; frames; simpl in *; auto.
  - right. do 2 eexists. split; [eassumption|]. split; [eassumption|]. right.
    by rewrite insert_insert_eq.
  - right. do 2 eexists. split; [eassumption|]. split; [eassumption|]. left. reflexivity.
Qed.

Lemma derived_step s s' e :
  Inv s -> derived (rooms s) (rooms s') ->
  Inv s' /\ forall c r r', rooms s !! c = Some r -> rooms s' !! c = Some r' ->
                          state_change_coarse e c r r'.
Proof.
  intros HI HD. split; [by eapply derived_Inv|].
  intros c r r' H1 H2. left. by eapply derived_states.
Qed.

Lemma step_inv s e s' o :
  Inv s -> step s e = Some (s', o) ->
  Inv s' /\ forall c r r', rooms s !! c = Some r -> rooms s' !! c = Some r' ->
                          state_change_coarse e c r r'.
Proof.
  intros HI H. apply step_run_event in H. destruct H as [a H].
  destruct e as [ws|ws req|ws|ws|i]; [| destruct req | | |]; simpl in H.
  - (* connection *)
    minv. apply derived_step; [done|]. apply derived_refl.
  - (* create *)
    destruct (create_rooms _ _ _ _ _ _ _ H)
      as [HD|(m1 & code & r & HD & Hnone & Hnk & Hr & Hst & Htm)];
      [by apply derived_step|].
    split.
    + unfold Inv. rewrite Hr. intros c r' Hc. destruct (decide (c = code)) as [->|Hne].
      * rewrite lookup_insert_eq in Hc. injection Hc as <-. split; [|done].
        unfold timer_started. by rewrite Htm.
      * rewrite lookup_insert_ne in Hc by done. eapply derived_Inv; eauto.
    + intros c r0 r' H1 H2. rewrite Hr in H2. destruct (decide (c = code)) as [->|Hne].
      * rewrite lookup_insert_eq in H2. injection H2 as <-. do 3 right. eauto 10.
      * rewrite lookup_insert_ne in H2 by done. left. by eapply derived_states.
  - by apply derived_step, (join_rooms _ _ _ _ _ _ _ _ H).
  - (* startSession *)
    destruct (startSession_rooms _ _ _ _ _ _ _ H) as [Hr|(r & i & Hk & Hown & Hr)].
    + apply derived_step; [done|]. rewrite Hr. apply derived_refl.
    + split.
      * unfold Inv. rewrite Hr. intros c r' Hc. destruct (decide (c = key_of roomCode)) as [->|Hne].
        -- rewrite lookup_insert_eq in Hc. injection Hc as <-. split; [by intros _|].
           exact (proj2 (HI _ _ Hk)).
        -- rewrite lookup_insert_ne in Hc by done. exact (HI _ _ Hc).
      * intros c r0 r' H1 H2. rewrite Hr in H2. destruct (decide (c = key_of roomCode)) as [->|Hne].
        -- rewrite lookup_insert_eq in H2. injection H2 as <-. right; left.
           split; [reflexivity|]. rewrite Hk in H1. injection H1 as <-. eauto 10.
        -- rewrite lookup_insert_ne in H2 by done. left. congruence.
  - by apply derived_step, (reconnect_rooms _ _ _ _ _ _ _ H).
  - by apply derived_step, (deleteRoom_req_rooms _ _ _ _ _ _ H).
  - by apply derived_step, (leaveRoom_req_rooms _ _ _ _ _ H).
  - by apply derived_step, (finishQuiz_rooms _ _ _ _ _ _ _ _ H).
  - by apply derived_step, (message_rooms _ _ _ _ _ _ H).
  - minv. apply derived_step; [done|]. apply derived_refl.
  - apply derived_step; [done|]. apply derived_kept_or_left. eapply leaveRoom_rooms; eauto.
  - apply derived_step; [done|]. apply derived_kept_or_left. eapply leaveRoom_rooms; eauto.
  - (* an interval fires *)
    minv; [|apply derived_step; [done|]; apply derived_refl].
    destruct (tick_rooms _ _ _ _ _ H) as [Hr|(r & t & Hk & Ht & [Hr|Hr])].
    + apply derived_step; [done|]. rewrite Hr. apply derived_refl.
    + apply derived_step; [done|]. rewrite Hr. eapply derived_insert; [eassumption|reflexivity|].
      unfold timer_started. simpl. intros Hts _. apply Hts. congruence.
    + assert (Hst : state r = Started) by (apply (proj1 (HI _ _ Hk)); congruence).
      split.
      * unfold Inv. rewrite Hr. intros c r' Hc. destruct (decide (c = s)) as [->|Hne].
        -- rewrite lookup_insert_eq in Hc. injection Hc as <-. split; [by intros []|].
           exact (proj2 (HI _ _ Hk)).
        -- rewrite lookup_insert_ne in Hc by done. exact (HI _ _ Hc).
      * intros c r0 r' H1 H2. rewrite Hr in H2. destruct (decide (c = s)) as [->|Hne].
        -- rewrite lookup_insert_eq in H2. injection H2 as <-. rewrite Hk in H1.
           injection H1 as <-. right; right; left. eauto.
        -- rewrite lookup_insert_ne in H2 by done. left. congruence.
Qed.

Lemma reachable_Inv s : reachable s -> Inv s.
Proof.
  induction 1 as [rs _|s e s' o _ IH Hs].
  - intros c r H. simpl in H. by rewrite lookup_empty in H.
  - exact (proj1 (step_inv _ _ _ _ IH Hs)).
Qed.

Lemma reachable_run s es s' o : reachable s -> run s es = Some (s', o) -> reachable s'.
Proof.
  revert s o. induction es as [|e es IH]; simpl; intros s o Hr H.
  - injection H; intros; subst. done.
  - destruct (step s e) as [[s1 o1]|] eqn:E; [|discriminate].
    destruct (run s1 es) as [[s2 o2]|] eqn:E2; [|discriminate].
    injection H; intros; subst. eapply IH; [|exact E2]. econstructor; eassumption.
Qed.

(** ** Concrete runs *)

Lemma after_reachable rs es :
  Forall valid_random rs -> run (init rs) es <> None -> reachable (after rs es).
Proof.
  intros Hv Hr. unfold after. destruct (run (init rs) es) as [[s o]|] eqn:E; [|congruence].
  eapply reachable_run; [constructor; exact Hv|exact E].
Qed.

Lemma step_post s e : step s e <> None -> step s e = Some (post s e, outs s e).
Proof. unfold post, outs. destruct (step s e) as [[s' o]|]; congruence. Qed.

Lemma valid_random_0 : Forall valid_random [0%Z].
Proof. constructor; [unfold valid_random; lia|constructor]. Qed.

Lemma s_created_reachable : reachable s_created.
Proof. apply after_reachable; [exact valid_random_0|vm_compute; discriminate]. Qed.
Lemma s_started_reachable : reachable s_started.
Proof. apply after_reachable; [exact valid_random_0|vm_compute; discriminate]. Qed.
Lemma s_ended_reachable : reachable s_ended.
Proof. apply after_reachable; [exact valid_random_0|vm_compute; discriminate]. Qed.

Example s_ended_state : option_map state (rooms s_ended !! "1000") = Some Ended.
Proof. vm_compute. reflexivity. Qed.

(** ** The exact state changes *)

Lemma leaveRoom_freed ws s a s1 o c r :
  leaveRoom ws s = Some (a, s1, o) -> rooms s !! c = Some r -> rooms s1 !! c = None ->
  field (croom (conn_of s ws)) = Some c /\ pws (owner r) = ws.
Proof.
  unfold leaveRoom. intros H Hc Hc1. minv; simpl in *;
    repeat match goal with
    | H : forEach _ _ _ = Some _ |- _ =>
        destruct (forEach_conns_only _ _ close_notice_conns_only _ _ _ _ H) as (Hr & _ & _ & _);
        clear H; rewrite ?Hr in *
    | H : rooms_get _ _ = Own _ |- _ => apply rooms_get_Own in H
    end.
  all: try congruence.
  all: match goal with H : field _ = Some ?k |- _ => destruct (decide (c = k)) as [->|Hne] end.
  all: try (rewrite lookup_insert_eq in Hc1; discriminate).
  all: try (rewrite ?lookup_delete_ne, ?lookup_insert_ne in Hc1 by congruence; congruence).
  all: match goal with H : rooms _ !! ?k = Some ?r0, H' : (_ =? _)%nat = true |- _ =>
         assert (r = r0) by congruence; subst; split; [reflexivity|]; by apply Nat.eqb_eq end.
Qed.

Lemma create_replaces ws em q s a s' o c r r' :
  do_create ws em q s = Some (a, s', o) -> rooms s !! c = Some r -> rooms s' !! c = Some r' ->
  state r' <> state r ->
  exists e0, field em = Some e0 /\ field (croom (conn_of s ws)) = Some c /\ pws (owner r) = ws /\
    r' = mkRoom (mkP ws e0) [] (field q) Waiting None None.
Proof.
  unfold do_create. intros H Hc Hc' Hne.
  apply bind_inv in H as (u & s1 & o1 & o2 & HL & H & _).
  destruct (leaveRoom_rooms _ _ _ _ _ HL) as (HK & _ & _).
  minv; simpl in *.
  - match goal with G : gen_code _ _ = Some (?k, _, _) |- _ =>
      apply gen_code_spec in G as (Hro & _ & _ & _ & _ & Hab & _); cbn in Hro, Hab;
      destruct (decide (c = k)) as [->|Hn] end.
    + rewrite lookup_insert_eq in Hc'. injection Hc' as <-.
      apply rooms_get_Absent in Hab as [Hab _].
      destruct (leaveRoom_freed _ _ _ _ _ _ _ HL Hc Hab) as [Hf Ho]. eexists. eauto.
    + rewrite lookup_insert_ne, Hro in Hc' by congruence.
      exfalso. apply Hne. exact (derived_states _ _ _ _ _ (derived_kept_or_left _ _ HK) Hc Hc').
  - exfalso. apply Hne. exact (derived_states _ _ _ _ _ (derived_kept_or_left _ _ HK) Hc Hc').
Qed.

Lemma tick_exact code s a s' o :
  tick code s = Some (a, s', o) ->
  rooms s' = rooms s \/
  exists r t, rooms s !! code = Some r /\ rtimer r = Some t /\
    (rooms s' = <[code := r_with_timer r (Some (mkT (js_dec (timeRemaining t)) (interval t)))]> (rooms s) \/
     (js_le0 (js_dec (timeRemaining t)) = true /\
      rooms s' = <[code := r_with_state (r_with_timer r None) Ended]> (rooms s))).
Proof.
  unfold tick. intros H. minv; frames; simpl in *; auto.
  - right. do 2 eexists. split; [eassumption|]. split; [eassumption|]. right.
    split; [assumption|]. by rewrite insert_insert_eq.
  - right. do 2 eexists. split; [eassumption|]. split; [eassumption|]. left. reflexivity.
Qed.

(** ** C1: the state field of a room *)

(** C1 (as stated: ended is absorbing) fails: after its session ended, the
    owner's startSession sets the room back to started. *)
Lemma C1_counterexample :
  reachable s_ended /\
  option_map state (rooms s_ended !! "1000") = Some Ended /\
  option_map state
    (rooms (post s_ended (Recv 1 (StartSession (Some "1000") None))) !! "1000") = Some Started.
Proof.
  split; [exact s_ended_reachable|]. split; vm_compute; reflexivity.
Qed.

(** C1 (amended): in every reachable state, one event changes the state of
    the room stored under a code only in these ways: the owner's
    startSession sets it to started (from any state, ended included); a
    timer tick of that room that reaches 0 moves it from started to ended
    (the room is kept without timer); a create by the room's owner, whose
    leaveRoom first deletes the room, stores a new waiting room without
    clients or timer under the freed code; otherwise the state is
    unchanged. *)
Theorem C1_state_transitions s e s' o c r r' :
  reachable s -> step s e = Some (s', o) ->
  rooms s !! c = Some r -> rooms s' !! c = Some r' ->
  state_change_allowed s e c r r'.
Proof.
  intros Hr Hs H1 H2.
  destruct (decide (state r' = state r)) as [E|Hne]; [left; exact E|].
  destruct (proj2 (step_inv _ _ _ _ (reachable_Inv _ Hr) Hs) _ _ _ H1 H2)
    as [E|[Hss|[(Hst & Hen & i & ->)|(Hw & ws & em & q & ->)]]];
    [contradiction|right; left; exact Hss| |].
  - right; right; left. split; [exact Hst|]. split; [exact Hen|].
    apply step_run_event in Hs as [a Hs]. unfold run_event in Hs. minv.
    + match goal with Hf : list_find _ _ = Some (?k, (?i', ?code)) |- _ =>
        pose proof Hf as Hf'; apply list_find_Some in Hf' as (_ & Hi & _); cbn in Hi; subst i' end.
      match goal with Ht : tick _ _ = Some _ |- _ =>
        destruct (tick_exact _ _ _ _ _ Ht) as [Hr'|(r0 & t & Hk & Htm & [Hr'|(Hle & Hr')])] end;
        rewrite Hr' in H2.
      * exfalso. apply Hne. congruence.
      * match goal with Hf : list_find _ (intervals _) = Some (_, (_, ?code)) |- _ =>
          destruct (decide (c = code)) as [->|Hn] end.
        -- rewrite lookup_insert_eq in H2. injection H2 as <-. assert (r0 = r) as -> by congruence. by destruct Hne.
        -- rewrite lookup_insert_ne in H2 by congruence. exfalso. apply Hne. congruence.
      * match goal with Hf : list_find _ (intervals _) = Some (_, (_, ?code)) |- _ =>
          destruct (decide (c = code)) as [->|Hn] end.
        -- rewrite lookup_insert_eq in H2. injection H2 as <-.
           assert (r0 = r) as -> by congruence. do 3 eexists. eauto.
        -- rewrite lookup_insert_ne in H2 by congruence. exfalso. apply Hne. congruence.
    + exfalso. apply Hne. congruence.
  - right; right; right. split; [exact Hw|].
    apply step_run_event in Hs as [a Hs]. unfold run_event, handle in Hs.
    destruct (create_replaces _ _ _ _ _ _ _ _ _ _ Hs H1 H2 Hne) as (e0 & He & Hf & Ho & ->).
    do 4 eexists. eauto.
Qed.

Lemma C1_witness :
  let e := Recv 1 (StartSession (Some "1000") None) in
  exists r r',
    reachable s_ended /\ step s_ended e = Some (post s_ended e, outs s_ended e) /\
    rooms s_ended !! "1000" = Some r /\ rooms (post s_ended e) !! "1000" = Some r' /\
    state_change_allowed s_ended e "1000" r r'.
Proof.
  intros e. do 2 eexists.
  assert (Hs : step s_ended e = Some (post s_ended e, outs s_ended e))
    by (apply step_post; vm_compute; discriminate).
  split; [exact s_ended_reachable|]. split; [exact Hs|].
  split; [vm_compute; reflexivity|]. split; [vm_compute; reflexivity|].
  apply (C1_state_transitions s_ended e _ _ "1000" _ _ s_ended_reachable Hs);
    vm_compute; reflexivity.
Defined.

(** ** C2: the session duration *)

Lemma startSession_by_duration ws rc t t' :
  duration t = duration t' -> do_startSession ws rc t = do_startSession ws rc t'.
Proof. intros H. unfold do_startSession. rewrite H. reflexivity. Qed.

(** C2 (as stated) fails: with timerSeconds = 0 the session lasts 1 second
    and sessionStarted carries 1, while omitting it gives 60. *)
Lemma C2_counterexample :
  outs s_created (Recv 1 (StartSession (Some "1000") (Some (jint 0)))) =
    [(1, MSessionStarted true (Some "quiz") (jint 1))] /\
  outs s_created (Recv 1 (StartSession (Some "1000") None)) =
    [(1, MSessionStarted true (Some "quiz") (jint 60))].
Proof. split; vm_compute; reflexivity. Qed.

(** C2 (amended): startSession with timerSeconds = 0 or -5 behaves exactly
    as with timerSeconds = 1 (a 1-second session), and omitting
    timerSeconds behaves exactly as timerSeconds = 60; so the zero or
    negative case differs from the omitted case only in the duration. *)
Theorem C2_duration_floor s ws rc :
  step s (Recv ws (StartSession rc (Some (jint 0)))) =
    step s (Recv ws (StartSession rc (Some (jint 1)))) /\
  step s (Recv ws (StartSession rc (Some (jint (-5))))) =
    step s (Recv ws (StartSession rc (Some (jint 1)))) /\
  step s (Recv ws (StartSession rc None)) =
    step s (Recv ws (StartSession rc (Some (jint 60)))).
Proof.
  assert (E0 : duration (Some (jint 0)) = duration (Some (jint 1))) by (vm_compute; reflexivity).
  assert (E5 : duration (Some (jint (-5))) = duration (Some (jint 1))) by (vm_compute; reflexivity).
  assert (E60 : duration None = duration (Some (jint 60))) by (vm_compute; reflexivity).
  unfold step, run_event, handle.
  rewrite (startSession_by_duration ws rc _ _ E0), (startSession_by_duration ws rc _ _ E5),
    (startSession_by_duration ws rc _ _ E60).
  auto.
Qed.

(** ** The room tags of connections *)

Lemma conn_of_ok s ws : Inv_conns s -> croom_ok (conn_of s ws).
Proof.
  intros H. unfold conn_of. destruct (conns s !! ws) eqn:E; [eauto|].
  intros c Hc. discriminate.
Qed.

Lemma Inv_conns_insert s ws k : Inv_conns s -> croom_ok k -> Inv_conns (with_conns (insert ws k) s).
Proof.
  intros H Hk w k' Hw. simpl in Hw. destruct (decide (w = ws)) as [->|Hne].
  - rewrite lookup_insert_eq in Hw. by injection Hw as <-.
  - rewrite lookup_insert_ne in Hw by done. eauto.
Qed.

Lemma croom_ok_none e : croom_ok (mkC None e).
Proof. intros c H. discriminate. Qed.

Lemma croom_ok_some c e : c ∉ inherited_keys -> croom_ok (mkC (Some c) e).
Proof. intros H c' Hc. simpl in Hc. by injection Hc as <-. Qed.

Lemma croom_ok_keep s ws e : Inv_conns s -> croom_ok (mkC (croom (conn_of s ws)) e).
Proof. intros H c Hc. exact (conn_of_ok s ws H c Hc). Qed.

Lemma Inv_conns_rooms s f : Inv_conns s -> Inv_conns (with_rooms f s).
Proof. intros H. exact H. Qed.

Lemma Inv_conns_same s s' : conns s' = conns s -> Inv_conns s -> Inv_conns s'.
Proof. intros E H ws k Hk. rewrite E in Hk. eauto. Qed.

Ltac conns_tac :=
  repeat first
    [ assumption
    | apply Inv_conns_rooms
    | apply Inv_conns_insert
    | apply croom_ok_none
    | apply croom_ok_keep
    | match goal with
      | |- Inv_conns {| rooms := _; conns := conns ?s; intervals := _; next_iv := _; rng := _ |} =>
          apply (Inv_conns_same s); [reflexivity|]
      end ].

Lemma close_notice_conns (c : participant) s a s' o :
  Inv_conns s -> (safeSend (pws c) MRoomClosed ;;; set_croom (pws c) None) s = Some (a, s', o) ->
  Inv_conns s'.
Proof. intros H1 H. minv. unfold set_croom in *. conns_tac. Qed.

Lemma forEach_close_conns (l : list participant) s a s' o :
  Inv_conns s ->
  forEach l (fun c => safeSend (pws c) MRoomClosed ;;; set_croom (pws c) None) s = Some (a, s', o) ->
  Inv_conns s'.
Proof.
  revert s a s' o. induction l as [|x l IH]; simpl; intros s a s' o H1 H.
  - injection H; intros; subst. done.
  - apply bind_inv in H. destruct H as (b & s1 & o1 & o2 & Hx & H & _).
    eapply IH; [|exact H]. eapply close_notice_conns; eassumption.
Qed.

Lemma leaveRoom_conns ws s a s' o :
  Inv_conns s -> leaveRoom ws s = Some (a, s', o) -> Inv_conns s'.
Proof.
  intros HC H. unfold leaveRoom in H. minv;
    repeat match goal with
    | H : forEach _ _ _ = Some _ |- _ =>
        let HC' := fresh in
        pose proof (forEach_close_conns _ _ _ _ _ ltac:(eassumption) H) as HC'; clear H
    end; conns_tac.
Qed.

Lemma deleteRoom_conns code s a s' o :
  deleteRoom code s = Some (a, s', o) -> conns s' = conns s.
Proof. unfold deleteRoom. intros H. minv; reflexivity. Qed.

Lemma step_conns s e s' o :
  Inv s -> Inv_conns s -> step s e = Some (s', o) -> Inv_conns s'.
Proof.
  intros HI HC H. apply step_run_event in H. destruct H as [a H]. unfold Inv in HI.
  destruct e as [ws|ws req|ws|ws|i]; [| destruct req | | |];
    unfold_handlers; minv;
    repeat match goal with
    | H : leaveRoom _ _ = Some _ |- _ =>
        pose proof (leaveRoom_conns _ _ _ _ _ HC H);
        let HL := fresh "HL" in
        destruct (leaveRoom_rooms _ _ _ _ _ H) as (HL & _ & _);
        pose proof (derived_Inv _ _ HI (derived_kept_or_left _ _ HL)); clear H HL
    | H : deleteRoom _ _ = Some _ |- _ => apply deleteRoom_conns in H
    | H : gen_code _ _ = Some _ |- _ =>
        let Hco := fresh "Hco" in let Hab := fresh "Hab" in
        destruct (gen_code_spec _ _ _ _ _ H) as (_ & Hco & _ & _ & _ & Hab & _); clear H;
        apply rooms_get_Absent in Hab
    | H : forEach _ _ _ = Some _ |- _ =>
        apply forEach_pure in H;
          [subst | intros ? ?; cbv beta; repeat case_match; eexists; reflexivity]
    | H : broadcast _ _ _ = Some _ |- _ => apply broadcast_inv in H; destruct H as [? ?]; subst
    | H : rooms_get _ _ = Own _ |- _ => apply rooms_get_Own in H
    end; simpl in *; conns_tac;
    try match goal with
    | Hco : conns ?x = <[?w := ?k]> (conns ?y) |- Inv_conns ?x =>
        apply (Inv_conns_same (with_conns (insert w k) y) x Hco); conns_tac
    | Hco : conns ?x = conns ?y |- Inv_conns ?x => exact (Inv_conns_same _ _ Hco ltac:(assumption))
    | |- croom_ok (mkC (Some ?c) _) => apply croom_ok_some
    end;
    try match goal with
    | Hab : _ !! ?c = None /\ ?c ∉ inherited_keys |- ?c ∉ inherited_keys => exact (proj2 Hab)
    | H : rooms ?x !! ?c = Some ?r, HI : Inv_rooms (rooms ?x) |- ?c ∉ inherited_keys =>
        exact (proj2 (HI _ _ H))
    end.
Qed.

Lemma reachable_Inv_conns s : reachable s -> Inv_conns s.
Proof.
  induction 1 as [rs _|s e s' o Hr IH Hs].
  - intros ws k H. simpl in H. by rewrite lookup_empty in H.
  - exact (step_conns _ _ _ _ (reachable_Inv _ Hr) IH Hs).
Qed.

Lemma total_seq (m k : M unit) : total m -> total k -> total (m ;;; k).
Proof.
  intros Hm Hk s. destruct (Hm s) as (s1 & o1 & E1). destruct (Hk s1) as (s2 & o2 & E2).
  eexists _, _. eapply bind_Some; eassumption.
Qed.

Lemma total_forEach {A} (l : list A) (f : A -> M unit) :
  (forall x, total (f x)) -> total (forEach l f).
Proof.
  intros Hf. induction l as [|x l IH]; simpl.
  - intros s. eexists _, _. reflexivity.
  - apply total_seq; auto.
Qed.

Ltac total_tac :=
  repeat match goal with
  | |- total (bind _ _) => apply total_seq
  | |- total (forEach _ _) => apply total_forEach; intros
  | |- total (match ?x with _ => _ end) => destruct x
  | |- total _ => intros ?s; eexists _, _; reflexivity
  end.

Lemma leaveRoom_total s ws : Inv s -> Inv_conns s -> exists s1 o1, leaveRoom ws s = Some (tt, s1, o1).
Proof.
  intros HI HC. unfold leaveRoom. cbn [bind get].
  destruct (field (croom (conn_of s ws))) as [code|] eqn:Ef; [|eauto].
  assert (Hnk : code ∉ inherited_keys).
  { apply (conn_of_ok s ws HC). unfold field in Ef.
    destruct (croom (conn_of s ws)) as [c|]; [|discriminate].
    destruct (String.eqb c ""); [discriminate|]. congruence. }
  destruct (rooms_get (rooms s) code) as [r| |] eqn:Eg.
  - destruct (Nat.eqb (pws (owner r)) ws).
    + match goal with |- context [match ?m s with _ => _ end] =>
        assert (Ht : total m) by total_tac; destruct (Ht s) as (s2 & o2 & ->)
      end. eauto.
    + cbn. eauto.
  - apply rooms_get_Inherited in Eg as [_ Hin]. contradiction.
  - cbn. eauto.
Qed.

(** ** Error replies *)

Lemma quiet_not_in o w t : quiet o -> In (w, MError t) o -> False.
Proof. unfold quiet. rewrite List.Forall_forall. intros Hq Hin. apply Hq in Hin. discriminate. Qed.

Lemma quiet_app o1 o2 : quiet o1 -> quiet o2 -> quiet (o1 ++ o2)%list.
Proof. apply Forall_app_2. Qed.

Lemma forEach_quiet {A} (l : list A) (f : A -> M unit) s a s' o :
  (forall x s a s' o, f x s = Some (a, s', o) -> quiet o) ->
  forEach l f s = Some (a, s', o) -> quiet o.
Proof.
  intros Hf. revert s a s' o. induction l as [|x l IH]; simpl; intros s a s' o H.
  - injection H; intros; subst. constructor.
  - apply bind_inv in H. destruct H as (b & s1 & o1 & o2 & H1 & H2 & ->).
    apply quiet_app; eauto.
Qed.

Lemma leaveRoom_quiet ws s a s' o : leaveRoom ws s = Some (a, s', o) -> quiet o.
Proof.
  unfold leaveRoom. intros H. minv;
    repeat match goal with
    | H : forEach _ _ _ = Some _ |- _ =>
        apply forEach_quiet in H; [|intros ? ? ? ? ? Hx; minv; repeat constructor]
    end;
    repeat (apply quiet_app || assumption || constructor).
Qed.

Ltac quiet_tac :=
  repeat match goal with
  | H : leaveRoom _ _ = Some _ |- _ => apply leaveRoom_quiet in H
  | H : forEach _ _ _ = Some _ |- _ =>
      apply forEach_quiet in H;
        [|intros ? ? ? ? ? Hx; cbv beta in Hx; minv; repeat constructor]
  | H : broadcast _ _ _ = Some _ |- _ => apply broadcast_inv in H; destruct H as [? ?]; subst
  | H : gen_code _ _ = Some _ |- _ =>
      destruct (gen_code_spec _ _ _ _ _ H) as (_ & _ & _ & _ & ? & _); clear H; subst
  end;
  repeat (apply quiet_app || assumption || constructor);
  try (apply List.Forall_forall; intros ? (? & <- & ?)%in_map_iff; reflexivity).

Lemma deleteRoom_out code s a s' o : deleteRoom code s = Some (a, s', o) -> o = [].
Proof. unfold deleteRoom. intros H. minv; reflexivity. Qed.

(** ** C3: failed requests *)

(** C3 (as stated: a failed request leaves all state unchanged) fails: the
    owner of room "1000" sends create without userEmail; create has already
    run leaveRoom, so the room is deleted before the error is sent. *)
Lemma C3_counterexample :
  let e := Recv 1 (Create None None) in
  reachable s_created /\
  rooms s_created !! "1000" <> None /\
  croom (conn_of s_created 1) = Some "1000" /\
  step s_created e <> None /\
  outs s_created e = [(1, MError "userEmail required to create room")] /\
  rooms (post s_created e) !! "1000" = None /\
  croom (conn_of (post s_created e) 1) = None.
Proof.
  split; [exact s_created_reachable|].
  repeat split; vm_compute; try reflexivity; discriminate.
Qed.

(** C3 (amended): when a request sends an error reply to its sender, the
    error is its last output, and the step had exactly the effect of:
    for create and join, leaveRoom on the sender (which may close the
    sender's room or drop the sender from a roster), followed by the
    error; for leaveRoom, the error alone, or, when the sender's tagged
    room no longer exists, clearing the sender's room tag followed by the
    error; for every other
    request, the error alone, with the state unchanged. *)
Theorem C3_error_effect s ws req s' o text :
  step s (Recv ws req) = Some (s', o) -> In (ws, MError text) o ->
  exists o1, o = (o1 ++ [(ws, MError text)])%list /\
    match req with
    | Create _ _ | Join _ _ _ => leaveRoom ws s = Some (tt, s', o1)
    | LeaveRoomReq =>
        o1 = [] /\
        (s' = s \/
         exists c, field (croom (conn_of s ws)) = Some c /\ rooms s !! c = None /\
           s' = with_conns (insert ws (mkC None (cemail (conn_of s ws)))) s)
    | _ => o1 = [] /\ s' = s
    end.
Proof.
  intros Hs Hin. apply step_run_event in Hs as [a Hs].
  destruct req; unfold_handlers; minv;
    repeat match goal with
    | H : deleteRoom _ _ = Some _ |- _ => apply deleteRoom_out in H; subst
    end.
  all: try (exfalso; refine (quiet_not_in _ _ _ _ Hin); quiet_tac; fail).
  all: cbn [app] in Hin |- *.
  all: match type of Hin with
       | In _ (?pre ++ [_]) =>
           apply in_app_or in Hin; destruct Hin as [Hin|[Hin|[]]];
             [exfalso; refine (quiet_not_in _ _ _ _ Hin); quiet_tac
             |injection Hin as <-; exists pre; split; [reflexivity|]]
       | In _ [_] =>
           destruct Hin as [Hin|[]]; injection Hin as <-; exists []; split; [reflexivity|]
       end.
  all: repeat match goal with x : unit |- _ => destruct x end.
  all: first [assumption | split; [reflexivity|first [reflexivity|left;reflexivity|idtac]]].
  all: right; eexists; split; [reflexivity|]; split; [|reflexivity].
  all: match goal with H : rooms_get _ _ = Absent |- _ => exact (proj1 (rooms_get_Absent _ _ H)) end.
Qed.

Lemma C3_witness :
  let e := Recv 1 (Create None None) in
  exists s' o, step s_created e = Some (s', o) /\
    In (1, MError "userEmail required to create room") o /\
    exists o1, o = (o1 ++ [(1, MError "userEmail required to create room")])%list /\
      leaveRoom 1 s_created = Some (tt, s', o1).
Proof.
  intros e. do 2 eexists.
  assert (Hs : step s_created e = Some (post s_created e, outs s_created e))
    by (apply step_post; vm_compute; discriminate).
  assert (Hin : In (1, MError "userEmail required to create room") (outs s_created e))
    by (vm_compute; left; reflexivity).
  split; [exact Hs|]. split; [exact Hin|].
  exact (C3_error_effect _ _ _ _ _ _ Hs Hin).
Defined.

(** ** C4: joining a started room *)

(** C4 (as stated: the failed join changes no roster and no tag) fails:
    member "b@x" of the started room "1000" asks to join it again; join
    first runs leaveRoom, which removes "b@x" from the roster and clears
    the room tag of connection 2, and only then sends the error. *)
Lemma C4_counterexample :
  let e := Recv 2 (Join (Some "1000") (Some "b@x") None) in
  reachable s_started /\
  option_map state (rooms s_started !! "1000") = Some Started /\
  option_map (fun r => map pemail (clients r)) (rooms s_started !! "1000") = Some ["b@x"] /\
  croom (conn_of s_started 2) = Some "1000" /\
  step s_started e <> None /\
  outs s_started e = [(2, MError "Session already started, cannot join")] /\
  option_map (fun r => map pemail (clients r)) (rooms (post s_started e) !! "1000") = Some [] /\
  croom (conn_of (post s_started e) 2) = None.
Proof.
  split; [exact s_started_reachable|].
  repeat split; vm_compute; try reflexivity; discriminate.
Qed.

(** C4 (amended): in a reachable state, a join naming a started room always
    fails with an error reply to the sender (its last output), but it
    first runs leaveRoom on the sender: the step has exactly the effect of
    leaveRoom followed by the error. So membership is unchanged only when
    the sender was in no room. *)
Theorem C4_join_started s ws c em un r :
  reachable s -> rooms s !! c = Some r -> state r = Started ->
  exists s1 o1 text,
    leaveRoom ws s = Some (tt, s1, o1) /\
    step s (Recv ws (Join (Some c) em un)) = Some (s1, (o1 ++ [(ws, MError text)])%list) /\
    (field (croom (conn_of s ws)) = None -> s1 = s /\ o1 = []).
Proof.
  intros Hr Hc Hst. pose proof (reachable_Inv _ Hr) as HI.
  pose proof (reachable_Inv_conns _ Hr) as HC.
  destruct (leaveRoom_total s ws HI HC) as (s1 & o1 & HL).
  pose proof (leaveRoom_rooms _ _ _ _ _ HL) as (HK & _ & _).
  assert (Hnk : c ∉ inherited_keys) by exact (proj2 (HI c r Hc)).
  exists s1, o1.
  enough (Hd : exists text, do_join ws (Some c) em un s = Some (tt, s1, (o1 ++ [(ws, MError text)])%list)).
  { destruct Hd as [text Hd]. exists text. split; [exact HL|]. split.
    - unfold step, run_event, handle. rewrite Hd. reflexivity.
    - intros Hf. rewrite (leaveRoom_untagged _ _ Hf) in HL. injection HL; auto. }
  unfold do_join.
  destruct (field (Some c)) as [c'|] eqn:Ef;
    [|eexists; eapply bind_Some; [exact HL|]; cbv beta; reflexivity].
  assert (c' = c) as -> by (simpl in Ef; destruct (String.eqb c ""); congruence).
  destruct (field em) as [e|] eqn:Ee;
    [|eexists; eapply bind_Some; [exact HL|]; cbv beta; reflexivity].
  destruct (HK c) as [Hk|[Hk|(r0 & cs & Hr0 & Hk)]].
  - rewrite Hc in Hk. eexists. eapply bind_Some; [exact HL|]. cbv beta.
    cbn [bind get]. rewrite (rooms_get_of_Some _ _ _ Hk).
    rewrite (decide_True _ _ Hst). reflexivity.
  - eexists. eapply bind_Some; [exact HL|]. cbv beta.
    cbn [bind get]. rewrite (rooms_get_of_None _ _ Hk Hnk). reflexivity.
  - rewrite Hc in Hr0. injection Hr0 as <-.
    eexists. eapply bind_Some; [exact HL|]. cbv beta.
    cbn [bind get]. rewrite (rooms_get_of_Some _ _ _ Hk).
    assert (Hst' : state (r_with_clients r cs) = Started) by exact Hst.
    rewrite (decide_True _ _ Hst'). reflexivity.
Qed.

Lemma C4_witness :
  exists r, reachable s_started /\ rooms s_started !! "1000" = Some r /\ state r = Started /\
  exists s1 o1 text,
    leaveRoom 2 s_started = Some (tt, s1, o1) /\
    step s_started (Recv 2 (Join (Some "1000") (Some "b@x") None)) =
      Some (s1, (o1 ++ [(2, MError text)])%list) /\
    (field (croom (conn_of s_started 2)) = None -> s1 = s_started /\ o1 = []).
Proof.
  destruct (rooms s_started !! "1000") as [r|] eqn:Hc; [|vm_compute in Hc; discriminate].
  assert (Hst : state r = Started) by (vm_compute in Hc; injection Hc as <-; reflexivity).
  exists r. split; [exact s_started_reachable|]. split; [reflexivity|]. split; [exact Hst|].
  exact (C4_join_started _ 2 "1000" (Some "b@x") None r s_started_reachable Hc Hst).
Defined.

(** ** C5: the owner's email in the roster *)

(** C5 (part 2, no roster email equals the owner's) is broken by join:
    unlike reconnect, join does not compare the email with the owner's.
    Connection 2 joins room "1000" with the owner's email "a@x", and the
    roster then holds "a@x". *)
Theorem C5_join_owner_email :
  let e := Recv 2 (Join (Some "1000") (Some "a@x") None) in
  reachable s_created /\
  option_map (fun r => (pemail (owner r), map pemail (clients r)))
    (rooms s_created !! "1000") = Some ("a@x", []) /\
  step s_created e <> None /\
  outs s_created e = [(2, MJoined "1000" (Some "quiz")); (1, MUserJoined "a@x" None)] /\
  option_map (fun r => (pemail (owner r), map pemail (clients r)))
    (rooms (post s_created e) !! "1000") = Some ("a@x", ["a@x"]).
Proof.
  split; [exact s_created_reachable|].
  repeat split; vm_compute; try reflexivity; discriminate.
Qed.

(** ** C7: reconnect to a code that names an inherited property *)

(** The rest of the reconnect branch behaves as C7 describes. For a live
    room that is not ended: the owner's email rebinds the owner's
    connection and replies with role owner; any other email rebinds the
    roster entry with that email, or appends a new one, and replies with
    role client. An ended room, and an absent code that names no inherited
    property, get an error reply with the state unchanged. *)
Lemma reconnect_spec s ws c e r :
  rooms s !! c = Some r -> c <> "" -> e <> "" -> state r <> Ended ->
  let owner_case := String.eqb (pemail (owner r)) e in
  let r' := if owner_case then r_with_owner r (mkP ws (pemail (owner r)))
            else r_with_clients r (rebind_or_push (clients r) ws e) in
  exists s',
    step s (Recv ws (Reconnect (Some c) (Some e))) =
      Some (s', [(ws, MReconnected (quiz r) (if owner_case then "owner" else "client")
                                   (state r) (time_or_null r'))]) /\
    rooms s' = <[c := r']> (rooms s) /\
    conn_of s' ws = mkC (Some c) (Some e).
Proof.
  intros Hc Hc0 He0 Hst owner_case r'.
  unfold step, run_event, handle, do_reconnect. cbn [field].
  rewrite (proj2 (String.eqb_neq c "") Hc0), (proj2 (String.eqb_neq e "") He0).
  cbn [bind get]. rewrite (rooms_get_of_Some _ _ _ Hc), (decide_False _ _ Hst).
  unfold r', owner_case. destruct (String.eqb (pemail (owner r)) e); cbn;
    (eexists; split; [reflexivity|split; [reflexivity|]]);
    unfold conn_of; cbn; rewrite !lookup_insert_eq; reflexivity.
Qed.

Lemma reconnect_absent s ws c e :
  rooms s !! c = None -> c ∉ inherited_keys -> c <> "" -> e <> "" ->
  step s (Recv ws (Reconnect (Some c) (Some e))) = Some (s, [(ws, MError "Room does not exist")]).
Proof.
  intros Hc Hk Hc0 He0.
  unfold step, run_event, handle, do_reconnect. cbn [field].
  rewrite (proj2 (String.eqb_neq c "") Hc0), (proj2 (String.eqb_neq e "") He0).
  cbn [bind get]. rewrite (rooms_get_of_None _ _ Hc Hk). reflexivity.
Qed.

Lemma reconnect_ended s ws c e r :
  rooms s !! c = Some r -> c <> "" -> e <> "" -> state r = Ended ->
  step s (Recv ws (Reconnect (Some c) (Some e))) = Some (s, [(ws, MError "Room already ended")]).
Proof.
  intros Hc Hc0 He0 Hst.
  unfold step, run_event, handle, do_reconnect. cbn [field].
  rewrite (proj2 (String.eqb_neq c "") Hc0), (proj2 (String.eqb_neq e "") He0).
  cbn [bind get]. rewrite (rooms_get_of_Some _ _ _ Hc), (decide_True _ _ Hst). reflexivity.
Qed.


(** [rooms["constructor"]] is [Object.prototype.constructor], so the code
    is not reported as absent: the tags are set and [room.owner.email]
    throws a TypeError out of the message handler, which stops the server. *)
Theorem C7_reconnect_inherited_code :
  reachable s_created /\
  rooms s_created !! "constructor" = None /\
  step s_created (Recv 2 (Reconnect (Some "constructor") (Some "x@y"))) = None.
Proof.
  split; [exact s_created_reachable|]. split; vm_compute; reflexivity.
Qed.

(** ** C10: recording a score *)

(** For a live room, finishQuiz works in any state and for any connection
    and identity: it stores the score in the room's finished map (created
    on first use) through [js_set_num], and sends userFinished only to the
    owner, with timeRemaining 0 when there is no timer or the remaining
    time is falsy. [js_set_num] is a plain insertion for every key except
    "__proto__". *)
Lemma finishQuiz_spec s ws c e sc r :
  rooms s !! c = Some r -> c <> "" -> e <> "" ->
  let f0 := match finished r with Some f => f | None => ∅ end in
  let t := match rtimer r with
           | Some t => if js_truthy_num (timeRemaining t) then timeRemaining t else jint 0
           | None => jint 0
           end in
  step s (Recv ws (FinishQuiz (Some c) (Some e) (Some sc))) =
    Some (with_rooms (insert c (r_with_finished r (js_set_num f0 e sc))) s,
          [(pws (owner r), MUserFinished e sc t)]).
Proof.
  intros Hc Hc0 He0 f0 t.
  unfold step, run_event, handle, do_finishQuiz. cbn [field].
  rewrite (proj2 (String.eqb_neq c "") Hc0), (proj2 (String.eqb_neq e "") He0).
  cbn [bind get]. rewrite (rooms_get_of_Some _ _ _ Hc). reflexivity.
Qed.

Lemma js_set_num_other o k v : k <> "__proto__" -> js_set_num o k v = <[k := v]> o.
Proof. intros H. unfold js_set_num. rewrite (proj2 (String.eqb_neq k "__proto__") H). reflexivity. Qed.


(** The email "__proto__" is a valid truthy string, but
    [room.finished["__proto__"] = score] goes to the inherited
    [__proto__] setter, which ignores a number: the score is not recorded,
    while the owner is still told that the user finished. *)
Theorem C10_proto_email_not_recorded :
  let e := Recv 2 (FinishQuiz (Some "1000") (Some "__proto__") (Some (jint 5))) in
  reachable s_created /\
  step s_created e <> None /\
  outs s_created e = [(1, MUserFinished "__proto__" (jint 5) (jint 0))] /\
  option_map finished (rooms (post s_created e) !! "1000") = Some (Some ∅).
Proof.
  split; [exact s_created_reachable|].
  repeat split; vm_compute; try reflexivity; discriminate.
Qed.

(** ** C6: the end of a session *)

(** C6: when the interval of room [c]'s timer fires and the decremented
    time is [<= 0], in that same step the room becomes ended, its timer
    is set to null and its interval is cancelled, no other room changes,
    and the outputs are one timerTick and then one sessionEnded for the
    owner and for each roster entry, in roster order. *)
Theorem C6_session_end s i k c r t s' o :
  rooms s !! c = Some r -> rtimer r = Some t ->
  list_find (fun p => p.1 = i) (intervals s) = Some (k, (i, c)) ->
  js_le0 (js_dec (timeRemaining t)) = true ->
  step s (Fire i) = Some (s', o) ->
  rooms s' !! c = Some (r_with_state (r_with_timer r None) Ended) /\
  (forall c', c' <> c -> rooms s' !! c' = rooms s !! c') /\
  intervals s' = filter (fun p => p.1 ≠ interval t) (intervals s) /\
  o = (map (fun p => (pws p, MTimerTick (js_dec (timeRemaining t)))) (everyone r) ++
       map (fun p => (pws p, MSessionEnded)) (everyone r))%list.
Proof.
  intros Hc Ht Hf Hle Hs. apply step_run_event in Hs as [a Hs].
  unfold run_event in Hs. minv; [|congruence].
  injection Hf as <- <- <-. unfold tick in Hs. minv; frames.
  all: repeat match goal with
       | H1 : ?a = Some ?u, H2 : ?a = Some ?v |- _ =>
           tryif constr_eq u v then fail else (rewrite H1 in H2; injection H2 as <-)
       end.
  all: repeat match goal with
       | H : rooms_get _ _ = Absent |- _ => apply rooms_get_Absent in H as [? _]
       | H : rooms_get _ _ = Inherited |- _ => apply rooms_get_Inherited in H as [? _]
       end.
  all: try congruence.
  simpl. split; [|split; [|split]].
  - rewrite lookup_insert_eq. reflexivity.
  - intros c' Hne. rewrite !lookup_insert_ne by congruence. reflexivity.
  - reflexivity.
  - rewrite ?app_nil_r. reflexivity.
Qed.

Lemma C6_witness :
  exists r t k s' o,
    rooms s_started !! "1000" = Some r /\ rtimer r = Some t /\
    list_find (fun p => p.1 = 0) (intervals s_started) = Some (k, (0, "1000")) /\
    js_le0 (js_dec (timeRemaining t)) = true /\
    step s_started (Fire 0) = Some (s', o) /\
    rooms s' !! "1000" = Some (r_with_state (r_with_timer r None) Ended) /\
    (forall c', c' <> "1000" -> rooms s' !! c' = rooms s_started !! c') /\
    intervals s' = filter (fun p => p.1 ≠ interval t) (intervals s_started) /\
    o = (map (fun p => (pws p, MTimerTick (js_dec (timeRemaining t)))) (everyone r) ++
         map (fun p => (pws p, MSessionEnded)) (everyone r))%list.
Proof.
  destruct (rooms s_started !! "1000") as [r|] eqn:Hc; [|vm_compute in Hc; discriminate].
  pose proof Hc as Hr. vm_compute in Hr. injection Hr as Hr.
  destruct (rtimer r) as [t|] eqn:Ht; [|subst r; discriminate].
  assert (Hf : list_find (fun p => p.1 = 0) (intervals s_started) = Some (0, (0, "1000")))
    by (vm_compute; reflexivity).
  assert (Hle : js_le0 (js_dec (timeRemaining t)) = true)
    by (subst r; injection Ht as <-; vm_compute; reflexivity).
  assert (Hs : step s_started (Fire 0) = Some (post s_started (Fire 0), outs s_started (Fire 0)))
    by (apply step_post; vm_compute; discriminate).
  exists r, t, 0, (post s_started (Fire 0)), (outs s_started (Fire 0)).
  do 5 (split; [first [assumption|reflexivity]|]).
  exact (C6_session_end _ _ _ _ _ _ _ _ Hc Ht Hf Hle Hs).
Defined.

(** ** C8: room codes *)

Lemma Z_to_dec_four_digits z : (1000 <= z <= 9999)%Z -> four_digits (Z_to_dec z) = true.
Proof.
  intros Hz.
  assert (H : forallb (fun k => four_digits (Z_to_dec (1000 + Z.of_nat k))) (seq 0 (Z.to_nat 9000)) = true)
    by (vm_compute; reflexivity).
  rewrite forallb_forall in H. specialize (H (Z.to_nat (z - 1000))).
  rewrite Z2Nat.id in H by lia. replace (1000 + (z - 1000))%Z with z in H by lia.
  apply H. apply in_seq. lia.
Qed.

Lemma code_of_random_range n : valid_random n -> (1000 <= code_of_random n <= 9999)%Z.
Proof.
  unfold valid_random, code_of_random. intros Hn.
  assert (0 <= 9000 * n / 2 ^ 53)%Z by (apply Z.div_pos; lia).
  assert (9000 * n / 2 ^ 53 < 9000)%Z by (apply Z.div_lt_upper_bound; lia).
  lia.
Qed.

(** C8: a create that succeeds (its userEmail is truthy and the step does
    not crash) replies to the sender with a room code of exactly four
    decimal digits; the code is free among the rooms live when it is
    generated (after the sender's leaveRoom), and the new room is the only
    change to the room table at that point, so it differs from every other
    live room's code. The Math.random() values are valid ones. *)
Theorem C8_room_code s ws em e q s' o :
  Forall valid_random (rng s) -> field em = Some e ->
  step s (Recv ws (Create em q)) = Some (s', o) ->
  exists s1 o1 code,
    leaveRoom ws s = Some (tt, s1, o1) /\
    o = (o1 ++ [(ws, MCreated code (field q))])%list /\
    four_digits code = true /\
    rooms s1 !! code = None /\
    rooms s' = <[code := mkRoom (mkP ws e) [] (field q) Waiting None None]> (rooms s1).
Proof.
  intros Hv He Hs. apply step_run_event in Hs as [a Hs].
  unfold run_event, handle, do_create in Hs. minv; [|congruence].
  injection He as <-. destruct x.
  destruct (leaveRoom_rooms _ _ _ _ _ H) as (_ & _ & Hg).
  destruct (gen_code_spec _ _ _ _ _ H5) as (Hro & _ & _ & _ & -> & Hab & n & Hn & -> & _).
  simpl in Hro, Hab, Hn. apply rooms_get_Absent in Hab as [Hab _].
  exists x0, x1, (Z_to_dec (code_of_random n)). split; [exact H|].
  split; [rewrite ?app_nil_l; reflexivity|]. split.
  - apply Z_to_dec_four_digits, code_of_random_range.
    rewrite Hg in Hn. rewrite Forall_forall in Hv. exact (Hv n Hn).
  - split; [exact Hab|]. simpl. rewrite Hro. reflexivity.
Qed.

Lemma C8_witness :
  let s := after [0%Z] [Connect 1; Connect 2] in
  let e := Recv 1 (Create (Some "a@x") (Some "quiz")) in
  exists s' o, Forall valid_random (rng s) /\ field (Some "a@x") = Some "a@x" /\
    step s e = Some (s', o) /\
    exists s1 o1 code,
      leaveRoom 1 s = Some (tt, s1, o1) /\
      o = (o1 ++ [(1, MCreated code (field (Some "quiz")))])%list /\
      four_digits code = true /\
      rooms s1 !! code = None /\
      rooms s' = <[code := mkRoom (mkP 1 "a@x") [] (field (Some "quiz")) Waiting None None]> (rooms s1).
Proof.
  intros s e.
  assert (Hv : Forall valid_random (rng s))
    by (replace (rng s) with [0%Z] by (vm_compute; reflexivity); exact valid_random_0).
  assert (He : field (Some "a@x") = Some "a@x") by reflexivity.
  assert (Hs : step s e = Some (post s e, outs s e)) by (apply step_post; vm_compute; discriminate).
  exists (post s e), (outs s e). split; [exact Hv|]. split; [exact He|]. split; [exact Hs|].
  exact (C8_room_code s 1 (Some "a@x") "a@x" (Some "quiz") _ _ Hv He Hs).
Defined.

(** ** C9: a NaN duration *)

Lemma timer_self r t : rtimer r = Some t -> r_with_timer r (Some t) = r.
Proof. destruct r; simpl. intros ->. reflexivity. Qed.

Lemma set_room_same s c r : rooms s !! c = Some r -> with_rooms (insert c r) s = s.
Proof. destruct s as [m cs iv nx rg]. simpl. intros H. unfold with_rooms. simpl. by rewrite insert_id. Qed.

Lemma nan_tick s c r i k :
  rooms s !! c = Some r -> rtimer r = Some (mkT JNaN i) ->
  list_find (fun p => p.1 = i) (intervals s) = Some (k, (i, c)) ->
  step s (Fire i) = Some (s, map (fun p => (pws p, MTimerTick JNaN)) (everyone r)).
Proof.
  intros Hc Ht Hf. unfold step, run_event, tick. cbn [bind get]. rewrite Hf. cbn [bind get].
  rewrite (rooms_get_of_Some _ _ _ Hc), Ht. cbn [timeRemaining interval js_dec].
  rewrite (timer_self _ _ Ht).
  unfold set_room, modify. cbn [bind]. rewrite (set_room_same _ _ _ Hc). cbn [js_le0].
  rewrite (bind_Some _ _ _ _ _ _ _ _ _ (broadcast_outputs _ _ s)
             (eq_refl : (fun _ : unit => ret tt) tt s = Some (tt, s, []))).
  cbn. rewrite app_nil_r. reflexivity.
Qed.

Lemma flat_map_single {A B} (f : A -> B) (l : list A) : flat_map (fun x => [f x]) l = map f l.
Proof. induction l as [|x l IH]; simpl; [reflexivity|]. by rewrite IH. Qed.

Lemma nan_start s ws c r :
  rooms s !! c = Some r -> pws (owner r) = ws ->
  exists s1,
    step s (Recv ws (StartSession (Some c) (Some JNaN))) =
      Some (s1, map (fun p => (pws p, MSessionStarted (String.eqb (pemail p) (pemail (owner r)))
                                        (quiz r) JNaN)) (everyone r)) /\
    rooms s1 !! c = Some (r_with_timer (r_with_state r Started) (Some (mkT JNaN (next_iv s)))) /\
    list_find (fun p => p.1 = next_iv s) (intervals s1) = Some (0, (next_iv s, c)).
Proof.
  intros Hc Hws. unfold step, run_event, handle, do_startSession. cbn [bind get key_of].
  rewrite (rooms_get_of_Some _ _ _ Hc), Hws, Nat.eqb_refl. cbn [negb].
  unfold set_room, modify. cbn [bind]. unfold bind.
  rewrite (forEach_outputs _ _
    (fun p => [(pws p, MSessionStarted (String.eqb (pemail p) (pemail (owner r))) (quiz r) JNaN)]))
    by (intros; reflexivity).
  rewrite flat_map_single.
  cbn [r_with_state rtimer everyone owner clients quiz].
  change (duration (Some JNaN)) with JNaN.
  destruct (rtimer r) as [t|]; cbn; rewrite ?app_nil_r;
    (eexists; split; [reflexivity|split; [apply lookup_insert_eq|]]);
    cbn; rewrite decide_True by reflexivity; reflexivity.
Qed.

Lemma nan_ticks s c r i k n :
  rooms s !! c = Some r -> rtimer r = Some (mkT JNaN i) ->
  list_find (fun p => p.1 = i) (intervals s) = Some (k, (i, c)) ->
  run s (repeat (Fire i) n) =
    Some (s, concat (repeat (map (fun p => (pws p, MTimerTick JNaN)) (everyone r)) n)).
Proof.
  intros Hc Ht Hf. induction n as [|n IH]; [reflexivity|].
  simpl. rewrite (nan_tick _ _ _ _ _ Hc Ht Hf), IH. reflexivity.
Qed.

(** C9: if the owner of room [c] starts a session with timerSeconds = NaN,
    the duration is NaN: sessionStarted carries NaN to the owner and to
    each roster entry, and the room gets a timer holding NaN. Then, for
    every n, n firings of its interval leave the whole state unchanged
    (the room stays started with NaN remaining) and output only timerTick
    NaN messages: the room never ends and sessionEnded is never sent. *)
Theorem C9_nan_session s ws c r n :
  rooms s !! c = Some r -> pws (owner r) = ws ->
  exists s1,
    step s (Recv ws (StartSession (Some c) (Some JNaN))) =
      Some (s1, map (fun p => (pws p, MSessionStarted (String.eqb (pemail p) (pemail (owner r)))
                                        (quiz r) JNaN)) (everyone r)) /\
    rooms s1 !! c = Some (r_with_timer (r_with_state r Started) (Some (mkT JNaN (next_iv s)))) /\
    run s1 (repeat (Fire (next_iv s)) n) =
      Some (s1, concat (repeat (map (fun p => (pws p, MTimerTick JNaN)) (everyone r)) n)).
Proof.
  intros Hc Hws. destruct (nan_start s ws c r Hc Hws) as (s1 & Hs & Hr & Hf).
  exists s1. split; [exact Hs|]. split; [exact Hr|].
  exact (nan_ticks _ _ _ _ _ n Hr eq_refl Hf).
Qed.

Lemma C9_witness :
  exists r s1,
    rooms s_created !! "1000" = Some r /\ pws (owner r) = 1 /\
    step s_created (Recv 1 (StartSession (Some "1000") (Some JNaN))) =
      Some (s1, map (fun p => (pws p, MSessionStarted (String.eqb (pemail p) (pemail (owner r)))
                                        (quiz r) JNaN)) (everyone r)) /\
    rooms s1 !! "1000" =
      Some (r_with_timer (r_with_state r Started) (Some (mkT JNaN (next_iv s_created)))) /\
    run s1 (repeat (Fire (next_iv s_created)) 3) =
      Some (s1, concat (repeat (map (fun p => (pws p, MTimerTick JNaN)) (everyone r)) 3)).
Proof.
  destruct (rooms s_created !! "1000") as [r|] eqn:Hc; [|vm_compute in Hc; discriminate].
  assert (Hws : pws (owner r) = 1) by (vm_compute in Hc; injection Hc as <-; reflexivity).
  destruct (C9_nan_session s_created 1 "1000" r 3 Hc Hws) as (s1 & H1 & H2 & H3).
  exists r, s1. repeat split; assumption.
Defined.

(** * Further properties of the server *)

(** X1: A message request from a connection whose room tag names a room stored in rooms relays the body to the owner and to every client of that room, in roster order, and leaves the state unchanged. *)
Theorem message_relay s ws b c r :
  field (croom (conn_of s ws)) = Some c -> rooms s !! c = Some r ->
  step s (Recv ws (Message b)) = Some (s, map (fun p => (pws p, MRelay b)) (everyone r)).
Proof.
  intros Hf Hc. unfold step, run_event, handle, do_message. cbn [bind get].
  rewrite Hf, (rooms_get_of_Some _ _ _ Hc), broadcast_outputs. reflexivity.
Qed.

(** X3: A startSession request naming an existing room, sent by a connection that is not the room's owner, only replies 'Only the owner can start the session'; a deleteRoom request in the same situation only replies 'Only the owner can delete the room'. Neither changes the state. *)
Theorem owner_only s ws rc t r :
  rooms s !! key_of rc = Some r -> pws (owner r) <> ws ->
  step s (Recv ws (StartSession rc t)) = Some (s, [(ws, MError "Only the owner can start the session")]) /\
  (field rc = Some (key_of rc) ->
   step s (Recv ws (DeleteRoomReq rc)) = Some (s, [(ws, MError "Only the owner can delete the room")])).
Proof.
  intros Hc Hne. apply Nat.eqb_neq in Hne. split.
  - unfold step, run_event, handle, do_startSession. cbn [bind get].
    rewrite (rooms_get_of_Some _ _ _ Hc), Hne. reflexivity.
  - intros Hf. unfold step, run_event, handle, do_deleteRoom. rewrite Hf. cbn [bind get].
    rewrite (rooms_get_of_Some _ _ _ Hc), Hne. reflexivity.
Qed.

(** X4: When the owner sends deleteRoom for its room, the owner and then each client receive roomDeleted, flagged as owner exactly when their connection is the owner's; the room is removed from rooms, the room's interval (if it has a timer) is cleared, and no connection tag changes. *)
Theorem deleteRoom_by_owner s ws rc c r :
  field rc = Some c -> rooms s !! c = Some r -> pws (owner r) = ws ->
  exists s',
    step s (Recv ws (DeleteRoomReq rc)) =
      Some (s', map (fun p => (pws p, MRoomDeleted c (Nat.eqb (pws p) (pws (owner r))))) (everyone r)) /\
    rooms s' = delete c (rooms s) /\ conns s' = conns s /\
    intervals s' = match rtimer r with
                   | Some t => filter (fun p => p.1 ≠ interval t) (intervals s)
                   | None => intervals s
                   end.
Proof.
  intros Hf Hc Hws. unfold step, run_event, handle, do_deleteRoom. rewrite Hf. cbn [bind get].
  rewrite (rooms_get_of_Some _ _ _ Hc), <- Hws, Nat.eqb_refl. cbn [negb]. unfold bind.
  rewrite (forEach_outputs _ _ (fun p => [(pws p, MRoomDeleted c (Nat.eqb (pws p) (pws (owner r))))]))
    by (intros; reflexivity).
  rewrite flat_map_single. unfold deleteRoom, bind, get.
  rewrite (rooms_get_of_Some _ _ _ Hc).
  destruct (rtimer r); cbn; rewrite ?app_nil_r; (eexists; split; [reflexivity|]); cbn;
    rewrite ?delete_insert_eq; auto.
Qed.

Lemma conn_of_insert s w k v : conn_of (with_conns (insert w k) s) v = if decide (v = w) then k else conn_of s v.
Proof.
  unfold conn_of. cbn. destruct (decide (v = w)) as [->|Hne].
  - by rewrite lookup_insert_eq.
  - by rewrite lookup_insert_ne by congruence.
Qed.

Lemma conn_of_rooms s f v : conn_of (with_rooms f s) v = conn_of s v.
Proof. reflexivity. Qed.

Lemma forEach_close_spec (l : list participant) s :
  exists s',
    forEach l (fun c => safeSend (pws c) MRoomClosed ;;; set_croom (pws c) None) s =
      Some (tt, s', map (fun p => (pws p, MRoomClosed)) l) /\
    rooms s' = rooms s /\ intervals s' = intervals s /\ next_iv s' = next_iv s /\ rng s' = rng s /\
    forall w, conn_of s' w = if decide (w ∈ map pws l) then mkC None (cemail (conn_of s w))
                             else conn_of s w.
Proof.
  revert s. induction l as [|x l IH]; intros s.
  - exists s. split; [reflexivity|]. do 4 (split; [reflexivity|]). intros w.
    rewrite decide_False; [reflexivity|]. apply not_elem_of_nil.
  - set (s1 := with_conns (insert (pws x) (mkC None (cemail (conn_of s (pws x))))) s).
    destruct (IH s1) as (s2 & E & Hr & Hi & Hn & Hg & Hw).
    exists s2. split.
    + cbn [forEach]. eapply eq_trans; [eapply bind_Some; [reflexivity | exact E] | reflexivity].
    + subst s1. simpl in *. do 4 (split; [assumption|]). intros w. rewrite Hw, !conn_of_insert.
      destruct (decide (w ∈ map pws l)) as [Hin|Hin];
        destruct (decide (w = pws x)) as [->|Hne];
        destruct (decide (_ ∈ pws x :: map pws l)) as [Hin'|Hin'];
        rewrite ?elem_of_cons in Hin'; try reflexivity; exfalso; tauto.
Qed.

Lemma field_Some c : c <> "" -> field (Some c) = Some c.
Proof. intros H. cbn. destruct (String.eqb_spec c "") as [->|_]; [congruence|reflexivity]. Qed.

Lemma flat_map_skip (l : list participant) ws (m : msg) :
  flat_map (fun p => if Nat.eqb (pws p) ws then [] else [(pws p, m)]) l =
  map (fun p => (pws p, m)) (filter (fun p => pws p ≠ ws) l).
Proof.
  induction l as [|x l IH]; [reflexivity|]. cbn [flat_map]. rewrite filter_cons.
  destruct (Nat.eqb_spec (pws x) ws) as [->|Hne].
  - rewrite decide_False by congruence. exact IH.
  - rewrite decide_True by exact Hne. cbn. f_equal. exact IH.
Qed.

(** X5: When the connection of a client that does not own its room closes or errors, every roster entry with that connection is removed from the room, nothing is sent, the registered intervals stay the same, the connection's room and email tags are cleared, and no other connection's tags change. *)
Theorem member_disconnect s ws c r e :
  e = Close ws \/ e = Error ws ->
  field (croom (conn_of s ws)) = Some c -> rooms s !! c = Some r -> pws (owner r) <> ws ->
  exists s',
    step s e = Some (s', []) /\
    rooms s' = <[c := r_with_clients r (filter (fun p => pws p ≠ ws) (clients r))]> (rooms s) /\
    intervals s' = intervals s /\
    conn_of s' ws = conn0 /\
    forall w, w <> ws -> conn_of s' w = conn_of s w.
Proof.
  intros He Hf Hc Hne. apply Nat.eqb_neq in Hne.
  assert (Hs : step s e = step s (Close ws)) by (destruct He as [-> | ->]; reflexivity).
  rewrite Hs. unfold step, run_event, leaveRoom. cbn [bind get].
  rewrite Hf, (rooms_get_of_Some _ _ _ Hc), Hne. cbn -[insert conn_of].
  eexists. split; [reflexivity|]. cbn -[insert conn_of]. do 2 (split; [reflexivity|]). split.
  - unfold conn_of at 1. cbn -[insert conn_of]. rewrite lookup_insert_eq, conn_of_insert, decide_True by reflexivity. reflexivity.
  - intros w Hw. unfold conn_of at 1. cbn -[insert conn_of]. rewrite !lookup_insert_ne by congruence. reflexivity.
Qed.

Lemma elem_map_pws p l : p ∈ l -> pws p ∈ map pws l.
Proof.
  induction l as [|x l IH]; intros H; [by apply not_elem_of_nil in H|].
  apply elem_of_cons in H as [->|H]; cbn; rewrite elem_of_cons; auto.
Qed.

Lemma conn_of_iv s i : conn_of (mkSys (rooms s) (conns s) i (next_iv s) (rng s)) = conn_of s.
Proof. reflexivity. Qed.

Ltac conn_simpl := repeat (rewrite conn_of_insert || rewrite conn_of_rooms || rewrite conn_of_iv).

Lemma bind_assoc {A B C} (m : M A) (k1 : A -> M B) (k2 : B -> M C) s :
  bind (bind m k1) k2 s = bind m (fun a => bind (k1 a) k2) s.
Proof.
  unfold bind. destruct (m s) as [[[a s1] o1]|]; [|reflexivity].
  destruct (k1 a s1) as [[[b s2] o2]|]; [|reflexivity].
  destruct (k2 b s2) as [[[c s3] o3]|]; [|reflexivity].
  by rewrite app_assoc.
Qed.

Lemma bind_first {A B} (m : M A) (k : A -> M B) s a s1 o1 :
  m s = Some (a, s1, o1) ->
  bind m k s = match k a s1 with
               | Some (b, s2, o2) => Some (b, s2, (o1 ++ o2)%list)
               | None => None
               end.
Proof. intros H. unfold bind. rewrite H. reflexivity. Qed.

(** X6: When the owner's connection closes or errors, each client of the room receives roomClosed, the room is deleted and its interval (if any) cleared, the owner's tags are cleared, every client's room tag becomes null, and the tags of every other connection stay the same. *)
Theorem owner_disconnect s ws c r e :
  e = Close ws \/ e = Error ws ->
  field (croom (conn_of s ws)) = Some c -> rooms s !! c = Some r -> pws (owner r) = ws ->
  exists s',
    step s e = Some (s', map (fun p => (pws p, MRoomClosed)) (clients r)) /\
    rooms s' = delete c (rooms s) /\
    intervals s' = match rtimer r with
                   | Some t => filter (fun p => p.1 ≠ interval t) (intervals s)
                   | None => intervals s
                   end /\
    conn_of s' ws = conn0 /\
    (forall p, p ∈ clients r -> croom (conn_of s' (pws p)) = None) /\
    (forall w, w <> ws -> w ∉ map pws (clients r) -> conn_of s' w = conn_of s w).
Proof.
  intros He Hf Hc Hws.
  assert (Hs : step s e = step s (Close ws)) by (destruct He as [-> | ->]; reflexivity).
  rewrite Hs. unfold step, run_event, leaveRoom. cbn [bind get].
  rewrite Hf, (rooms_get_of_Some _ _ _ Hc), Hws, Nat.eqb_refl.
  destruct (forEach_close_spec (clients r) s) as (s1 & E & Hr & Hi & Hn & Hg & Hw).
  rewrite bind_assoc, (bind_first _ _ _ _ _ _ E).
  destruct (rtimer r) as [t|] eqn:Et;
    cbn [bind ret modify set_room del_room set_croom set_cemail clearInterval];
    (eexists; split; [rewrite ?app_nil_r; reflexivity|]);
    cbn [rooms intervals with_rooms with_conns];
    (split; [rewrite Hr, ?delete_insert_eq; reflexivity|]);
    (split; [rewrite Hi; reflexivity|]);
    rewrite ?conn_of_insert, ?conn_of_rooms, ?conn_of_iv, ?decide_True by reflexivity;
    (split; [reflexivity|]); split.
  all: try (intros p Hp; rewrite !conn_of_insert, ?conn_of_rooms, ?conn_of_iv;
            destruct (decide (pws p = ws)); [reflexivity|];
            rewrite Hw, decide_True by (apply elem_map_pws, Hp); reflexivity).
  all: intros w Hne Hnin; rewrite !conn_of_insert, ?conn_of_rooms, ?conn_of_iv, !decide_False by assumption;
       rewrite Hw, decide_False by exact Hnin; reflexivity.
Qed.

(** X7: A leaveRoom request from a client that does not own its room removes its connection from the roster, broadcasts userLeft with the new roster to the owner and the remaining clients, then replies leftRoom to the sender; the intervals stay the same, the sender's tags are cleared and no other tags change. *)
Theorem leave_request_member s ws c r :
  field (croom (conn_of s ws)) = Some c -> rooms s !! c = Some r -> pws (owner r) <> ws ->
  let r' := r_with_clients r (filter (fun p => pws p ≠ ws) (clients r)) in
  exists s',
    step s (Recv ws LeaveRoomReq) =
      Some (s', (map (fun p => (pws p, MUserLeft (clients r'))) (everyone r') ++ [(ws, MLeftRoom c)])%list) /\
    rooms s' = <[c := r']> (rooms s) /\
    intervals s' = intervals s /\
    conn_of s' ws = conn0 /\
    forall w, w <> ws -> conn_of s' w = conn_of s w.
Proof.
  intros Hf Hc Hne r'. apply Nat.eqb_neq in Hne.
  unfold step, run_event, handle, do_leaveRoom. cbn [bind get].
  rewrite Hf, (rooms_get_of_Some _ _ _ Hc), Hne.
  cbn [bind ret modify set_room set_croom set_cemail safeSend].
  rewrite (bind_first _ _ _ _ _ _ (broadcast_outputs _ _ _)).
  cbn [bind ret modify set_room set_croom set_cemail safeSend].
  eexists. split; [rewrite ?app_nil_r; reflexivity|].
  cbn [rooms intervals with_rooms with_conns].
  do 2 (split; [reflexivity|]).
  conn_simpl. rewrite !decide_True by reflexivity. split; [reflexivity|].
  intros w Hw. conn_simpl. rewrite !decide_False by exact Hw. reflexivity.
Qed.

Lemma forEach_skip_sender (l : list participant) ws m s :
  forEach l (fun c => if Nat.eqb (pws c) ws then ret tt else safeSend (pws c) m) s =
    Some (tt, s, map (fun p => (pws p, m)) (filter (fun p => pws p ≠ ws) l)).
Proof.
  rewrite (forEach_outputs _ _ (fun p => if Nat.eqb (pws p) ws then [] else [(pws p, m)])).
  - by rewrite flat_map_skip.
  - intros x s'. by destruct (Nat.eqb (pws x) ws).
Qed.

(** X9: A join from a connection without a room tag, with a non-empty roomCode and userEmail naming an existing room that is not started, tags the sender with that room and email, rebinds or appends the sender in the roster, replies joined with the room's quiz, and sends userJoined to every participant whose connection is not the sender's; intervals and other connections' tags are unchanged. *)
Theorem join_success s ws c e u r :
  field (croom (conn_of s ws)) = None -> c <> "" -> e <> "" ->
  rooms s !! c = Some r -> state r <> Started ->
  let r' := r_with_clients r (rebind_or_push (clients r) ws e) in
  exists s',
    step s (Recv ws (Join (Some c) (Some e) u)) =
      Some (s', (ws, MJoined c (quiz r)) ::
                map (fun p => (pws p, MUserJoined e u)) (filter (fun p => pws p ≠ ws) (everyone r'))) /\
    rooms s' = <[c := r']> (rooms s) /\
    intervals s' = intervals s /\
    conn_of s' ws = mkC (Some c) (Some e) /\
    forall w, w <> ws -> conn_of s' w = conn_of s w.
Proof.
  intros Hn Hc He Hr Hst r'.
  unfold step, run_event, handle, do_join.
  rewrite (bind_first _ _ _ _ _ _ (leaveRoom_untagged _ _ Hn)). rewrite (field_Some c Hc), (field_Some e He).
  cbn [bind get]. rewrite (rooms_get_of_Some _ _ _ Hr), decide_False by exact Hst.
  cbn [bind ret modify set_room set_croom set_cemail safeSend].
  rewrite forEach_skip_sender.
  eexists. split; [reflexivity|].
  cbn [rooms intervals with_rooms with_conns].
  do 2 (split; [reflexivity|]).
  conn_simpl. rewrite !decide_True by reflexivity. split; [reflexivity|].
  intros w Hw. conn_simpl. rewrite !decide_False by exact Hw. reflexivity.
Qed.


(** X2: A message request from a connection with no room tag, or whose tagged room code is neither stored in rooms nor an inherited property name, only replies 'You are not in a room' to the sender and leaves the state unchanged. *)
Theorem message_no_room s ws b :
  (field (croom (conn_of s ws)) = None \/
   exists c, field (croom (conn_of s ws)) = Some c /\ rooms s !! c = None /\ c ∉ inherited_keys) ->
  step s (Recv ws (Message b)) = Some (s, [(ws, MError "You are not in a room")]).
Proof.
  intros [Hf|(c & Hf & Hc & Hk)]; unfold step, run_event, handle, do_message; cbn [bind get];
    rewrite Hf; [reflexivity|]. rewrite (rooms_get_of_None _ _ Hc Hk). reflexivity.
Qed.

(** X8: A leaveRoom request replies 'You are not in a room' with the state unchanged when the sender has no room tag; replies 'Room no longer exists' and only clears the sender's room tag when the tagged room is gone; and replies 'Owner cannot leave. Use deleteRoom instead.' with the state unchanged when the sender owns the room. *)
Theorem leave_request_errors s ws :
  (field (croom (conn_of s ws)) = None ->
   step s (Recv ws LeaveRoomReq) = Some (s, [(ws, MError "You are not in a room")])) /\
  (forall c, field (croom (conn_of s ws)) = Some c -> rooms s !! c = None -> c ∉ inherited_keys ->
   step s (Recv ws LeaveRoomReq) =
     Some (with_conns (insert ws (mkC None (cemail (conn_of s ws)))) s,
           [(ws, MError "Room no longer exists")])) /\
  (forall c r, field (croom (conn_of s ws)) = Some c -> rooms s !! c = Some r -> pws (owner r) = ws ->
   step s (Recv ws LeaveRoomReq) = Some (s, [(ws, MError "Owner cannot leave. Use deleteRoom instead.")])).
Proof.
  unfold step, run_event, handle, do_leaveRoom. cbn [bind get]. split; [|split].
  - intros Hf. rewrite Hf. reflexivity.
  - intros c Hf Hc Hk. rewrite Hf, (rooms_get_of_None _ _ Hc Hk). reflexivity.
  - intros c r Hf Hc Hws. rewrite Hf, (rooms_get_of_Some _ _ _ Hc), Hws, Nat.eqb_refl. reflexivity.
Qed.

Lemma map_fmap_eq {A B} (f : A -> B) (l : list A) : map f l = f <$> l.
Proof. induction l as [|x l IH]; cbn; [reflexivity|]. by rewrite IH. Qed.

Lemma rebind_or_push_facts cs ws e :
  map pemail (rebind_or_push cs ws e) =
    (if decide (e ∈ map pemail cs) then map pemail cs else map pemail cs ++ [e])%list /\
  mkP ws e ∈ rebind_or_push cs ws e /\
  (forall p, p ∈ cs -> pemail p <> e -> p ∈ rebind_or_push cs ws e) /\
  (NoDup (map pemail cs) -> NoDup (map pemail (rebind_or_push cs ws e))).
Proof.
  unfold rebind_or_push, find_email.
  destruct (list_find (fun c => pemail c = e) cs) as [[i x]|] eqn:Hf; cbn [mbind option_bind].
  - apply list_find_Some in Hf as (Hi & Hx & _). cbn in Hx. subst e.
    assert (Hm : map pemail (<[i := mkP ws (pemail x)]> cs) = map pemail cs).
    { rewrite !map_fmap_eq, list_fmap_insert. cbn.
      apply list_insert_id. by rewrite list_lookup_fmap, Hi. }
    cbn [fst]. rewrite Hm, decide_True.
    2: { rewrite map_fmap_eq. apply list_elem_of_fmap_2. by eapply list_elem_of_lookup_2. }
    split; [reflexivity|]. split; [|split; [|done]].
    + apply list_elem_of_lookup_2 with i. apply list_lookup_insert_eq. by eapply lookup_lt_Some.
    + intros p Hp Hne. apply list_elem_of_lookup_1 in Hp as [j Hj].
      apply list_elem_of_lookup_2 with j. rewrite list_lookup_insert_ne; [done|].
      intros ->. congruence.
  - apply list_find_None in Hf.
    assert (Hn : e ∉ map pemail cs).
    { rewrite map_fmap_eq. intros (p & -> & Hp)%list_elem_of_fmap_1.
      rewrite Forall_forall in Hf. by apply (Hf p). }
    rewrite map_app, decide_False by exact Hn. split; [reflexivity|].
    split; [|split].
    + apply elem_of_app. right. by left.
    + intros p Hp _. apply elem_of_app. by left.
    + intros Hnd. cbn. apply NoDup_app. split; [done|]. split.
      * intros x Hx ->%list_elem_of_singleton. contradiction.
      * apply NoDup_singleton.
Qed.

Lemma forEach_send (l : list participant) (g : participant -> msg) s :
  forEach l (fun p => safeSend (pws p) (g p)) s = Some (tt, s, map (fun p => (pws p, g p)) l).
Proof.
  rewrite (forEach_outputs _ _ (fun p => [(pws p, g p)])) by reflexivity.
  apply (f_equal (fun o => Some (tt, s, o))), flat_map_single.
Qed.

(** X11: When the owner starts a session in its room, each participant receives sessionStarted with the quiz, the computed duration and an owner flag that is true when its email equals the owner's; the room becomes started with a timer holding the duration and a new interval handle, the previous interval (if any) is cleared and the new one registered, and connection tags are unchanged. *)
Theorem start_session_owner s ws rc t r :
  rooms s !! key_of rc = Some r -> pws (owner r) = ws ->
  let d := duration t in
  exists s',
    step s (Recv ws (StartSession rc t)) =
      Some (s', map (fun p => (pws p, MSessionStarted (String.eqb (pemail p) (pemail (owner r))) (quiz r) d))
                    (everyone r)) /\
    rooms s' = <[key_of rc := r_with_timer (r_with_state r Started) (Some (mkT d (next_iv s)))]> (rooms s) /\
    intervals s' = (next_iv s, key_of rc) ::
                   match rtimer r with
                   | Some t0 => filter (fun p => p.1 ≠ interval t0) (intervals s)
                   | None => intervals s
                   end /\
    next_iv s' = S (next_iv s) /\
    conns s' = conns s.
Proof.
  intros Hc Hws d. unfold step, run_event, handle, do_startSession. cbn [bind get].
  rewrite (rooms_get_of_Some _ _ _ Hc), Hws, Nat.eqb_refl. cbn [negb].
  cbn [bind set_room modify].
  rewrite (bind_first _ _ _ _ _ _ (forEach_send _ _ _)).
  cbn [rtimer r_with_state]. destruct (rtimer r) as [t0|] eqn:Et; cbn; (eexists; split; [rewrite ?app_nil_r; reflexivity|]); cbn;
    rewrite insert_insert_eq; auto.
Qed.

Lemma Rost_insert m k r : Rost m -> roster_ok r -> Rost (<[k := r]> m).
Proof.
  intros H Hr c r' Hc. destruct (decide (c = k)) as [->|Hne].
  - rewrite lookup_insert_eq in Hc. by injection Hc as <-.
  - rewrite lookup_insert_ne in Hc by congruence. eauto.
Qed.

Lemma Rost_delete m k : Rost m -> Rost (delete k m).
Proof.
  intros H c r' Hc. destruct (decide (c = k)) as [->|Hne].
  - by rewrite lookup_delete_eq in Hc.
  - rewrite lookup_delete_ne in Hc by congruence. eauto.
Qed.

Lemma NoDup_map_filter {A B} (f : A -> B) (P : A -> Prop) `{forall x, Decision (P x)} (l : list A) :
  NoDup (map f l) -> NoDup (map f (filter P l)).
Proof.
  induction l as [|x l IH]; intros Hn; [constructor|]. cbn in Hn. apply NoDup_cons in Hn as [Hx Hn].
  rewrite filter_cons. destruct (decide (P x)); [|auto].
  cbn. apply NoDup_cons. split; [|auto].
  intros Hin. apply Hx. rewrite map_fmap_eq in Hin |- *.
  apply list_elem_of_fmap_1 in Hin as (y & Hy & Hin). rewrite Hy.
  apply list_elem_of_fmap_2. by apply list_elem_of_filter in Hin as [_ ?].
Qed.

Lemma roster_ok_rebind r ws e : roster_ok r -> roster_ok (r_with_clients r (rebind_or_push (clients r) ws e)).
Proof. apply (rebind_or_push_facts (clients r) ws e). Qed.

Lemma roster_ok_filter r (P : participant -> Prop) `{forall x, Decision (P x)} :
  roster_ok r -> roster_ok (r_with_clients r (filter P (clients r))).
Proof. apply NoDup_map_filter. Qed.

Ltac rost_tac :=
  repeat first
    [ assumption
    | apply Rost_delete
    | apply Rost_insert
    | apply roster_ok_rebind
    | apply roster_ok_filter
    | match goal with
      | |- roster_ok (mkRoom _ [] _ _ _ _) => apply NoDup_nil_2
      | H : ?m !! ?c = Some ?r, HR : Rost ?m |- roster_ok _ => exact (HR _ _ H)
      end ].

Lemma leaveRoom_Rost ws s a s1 o :
  Rost (rooms s) -> leaveRoom ws s = Some (a, s1, o) -> Rost (rooms s1).
Proof.
  intros HR H. unfold leaveRoom in H. minv; simpl in *;
    repeat match goal with
    | H : forEach _ _ _ = Some _ |- _ =>
        destruct (forEach_conns_only _ _ close_notice_conns_only _ _ _ _ H) as (Hr & _ & _ & _);
        clear H; rewrite ?Hr
    | H : rooms_get _ _ = Own _ |- _ => apply rooms_get_Own in H
    end; rost_tac.
Qed.

Lemma step_Rost s e s' o : Rost (rooms s) -> step s e = Some (s', o) -> Rost (rooms s').
Proof.
  intros HR H. apply step_run_event in H. destruct H as [a H].
  destruct e as [ws|ws req|ws|ws|i]; [| destruct req | | |];
    unfold_handlers; minv;
    repeat match goal with
    | H : leaveRoom _ _ = Some _ |- _ =>
        pose proof (leaveRoom_Rost _ _ _ _ _ HR H); clear H
    | H : deleteRoom _ _ = Some _ |- _ =>
        let HD := fresh "HD" in destruct (deleteRoom_rooms _ _ _ _ _ H) as (HD & _ & _); clear H
    | H : gen_code _ _ = Some _ |- _ =>
        let Hro := fresh "Hro" in
        destruct (gen_code_spec _ _ _ _ _ H) as (Hro & _); clear H
    | H : forEach _ _ _ = Some _ |- _ =>
        apply forEach_pure in H;
          [subst | intros ? ?; cbv beta; repeat case_match; eexists; reflexivity]
    | H : broadcast _ _ _ = Some _ |- _ => apply broadcast_inv in H; destruct H as [? ?]; subst
    | H : rooms_get _ _ = Own _ |- _ => apply rooms_get_Own in H
    end; simpl in *; rewrite ?HD, ?Hro; rost_tac.
Qed.

Lemma Ivl_same_timer m l k r r' :
  m !! k = Some r -> option_map interval (rtimer r') = option_map interval (rtimer r) ->
  Ivl_on m l -> Ivl_on (<[k := r']> m) l.
Proof.
  intros Hk Ht H i c Hin. destruct (H i c Hin) as (r0 & t0 & Hc & Ht0 & Hi).
  destruct (decide (c = k)) as [->|Hne].
  - rewrite lookup_insert_eq. rewrite Hk in Hc. injection Hc as <-. rewrite Ht0 in Ht.
    destruct (rtimer r') as [t'|] eqn:E; [|discriminate]. injection Ht as Ht.
    exists r', t'. repeat split; congruence.
  - rewrite lookup_insert_ne by congruence. eauto.
Qed.

Lemma Ivl_filter m l (P : nat * string -> Prop) `{forall x, Decision (P x)} :
  Ivl_on m l -> Ivl_on m (filter P l).
Proof. intros HI i c Hin. apply list_elem_of_filter in Hin as [_ Hin]. eauto. Qed.

Lemma Ivl_clear m l k r t r' :
  m !! k = Some r -> rtimer r = Some t -> rtimer r' = None ->
  Ivl_on m l -> Ivl_on (<[k := r']> m) (filter (fun p => p.1 ≠ interval t) l).
Proof.
  intros Hk Ht Ht' H i c Hin. apply list_elem_of_filter in Hin as [Hne Hin]. cbn in Hne.
  destruct (H i c Hin) as (r0 & t0 & Hc & Ht0 & Hi).
  destruct (decide (c = k)) as [->|Hck].
  - rewrite Hk in Hc. injection Hc as <-. congruence.
  - rewrite lookup_insert_ne by congruence. eauto.
Qed.

Lemma Ivl_delete_clear m l k r t :
  m !! k = Some r -> rtimer r = Some t ->
  Ivl_on m l -> Ivl_on (delete k m) (filter (fun p => p.1 ≠ interval t) l).
Proof.
  intros Hk Ht H i c Hin. apply list_elem_of_filter in Hin as [Hne Hin]. cbn in Hne.
  destruct (H i c Hin) as (r0 & t0 & Hc & Ht0 & Hi).
  destruct (decide (c = k)) as [->|Hck].
  - rewrite Hk in Hc. injection Hc as <-. congruence.
  - rewrite lookup_delete_ne by congruence. eauto.
Qed.

Lemma Ivl_delete_none m l k r :
  m !! k = Some r -> rtimer r = None -> Ivl_on m l -> Ivl_on (delete k m) l.
Proof.
  intros Hk Ht H i c Hin. destruct (H i c Hin) as (r0 & t0 & Hc & Ht0 & Hi).
  destruct (decide (c = k)) as [->|Hck].
  - rewrite Hk in Hc. injection Hc as <-. congruence.
  - rewrite lookup_delete_ne by congruence. eauto.
Qed.

Lemma Ivl_new m l k r :
  m !! k = None -> rtimer r = None -> Ivl_on m l -> Ivl_on (<[k := r]> m) l.
Proof.
  intros Hk Ht H i c Hin. destruct (H i c Hin) as (r0 & t0 & Hc & Ht0 & Hi).
  destruct (decide (c = k)) as [->|Hck]; [congruence|].
  rewrite lookup_insert_ne by congruence. eauto.
Qed.

Lemma Ivl_start m l k r r' t' :
  m !! k = Some r -> rtimer r' = Some t' -> Ivl_on m l ->
  Ivl_on (<[k := r']> m)
    ((interval t', k) :: match rtimer r with
                         | Some t => filter (fun p => p.1 ≠ interval t) l
                         | None => l
                         end).
Proof.
  intros Hk Ht' H i c Hin. apply elem_of_cons in Hin as [Heq|Hin].
  - injection Heq as -> ->. rewrite lookup_insert_eq. eauto.
  - destruct (decide (c = k)) as [->|Hck].
    + exfalso. destruct (rtimer r) as [t|] eqn:Ht.
      * apply list_elem_of_filter in Hin as [Hne Hin]. cbn in Hne.
        destruct (H i k Hin) as (r0 & t0 & Hc & Ht0 & Hi). rewrite Hk in Hc. injection Hc as <-. congruence.
      * destruct (H i k Hin) as (r0 & t0 & Hc & Ht0 & Hi). rewrite Hk in Hc. injection Hc as <-. congruence.
    + rewrite lookup_insert_ne by congruence.
      destruct (rtimer r); [apply list_elem_of_filter in Hin as [_ Hin]|]; eauto.
Qed.

Lemma Ivl_start_some m l k r r' t n :
  m !! k = Some r -> rtimer r = Some t -> option_map interval (rtimer r') = Some n -> Ivl_on m l ->
  Ivl_on (<[k := r']> m) ((n, k) :: filter (fun p => p.1 ≠ interval t) l).
Proof.
  intros Hk Ht Hn H. destruct (rtimer r') as [t'|] eqn:E; [|discriminate]. injection Hn as <-.
  pose proof (Ivl_start m l k r r' t' Hk E H) as HS. rewrite Ht in HS. exact HS.
Qed.

Lemma Ivl_start_none m l k r r' n :
  m !! k = Some r -> rtimer r = None -> option_map interval (rtimer r') = Some n -> Ivl_on m l ->
  Ivl_on (<[k := r']> m) ((n, k) :: l).
Proof.
  intros Hk Ht Hn H. destruct (rtimer r') as [t'|] eqn:E; [|discriminate]. injection Hn as <-.
  pose proof (Ivl_start m l k r r' t' Hk E H) as HS. rewrite Ht in HS. exact HS.
Qed.

Ltac ivl_tac :=
  repeat first
    [ assumption
    | rewrite insert_insert_eq
    | rewrite delete_insert_eq
    | match goal with
      | H : ?m !! ?k = Some ?r, Ht : rtimer ?r = Some ?t |- Ivl_on (delete ?k ?m) (filter _ _) =>
          apply (Ivl_delete_clear _ _ _ _ _ H Ht)
      | H : ?m !! ?k = Some ?r, Ht : rtimer ?r = None |- Ivl_on (delete ?k ?m) _ =>
          apply (Ivl_delete_none _ _ _ _ H Ht)
      | H : ?m !! ?k = Some ?r, Ht : rtimer ?r = Some ?t |- Ivl_on (<[?k := _]> ?m) (_ :: filter _ _) =>
          apply (Ivl_start_some _ _ _ _ _ _ _ H Ht); [reflexivity|]
      | H : ?m !! ?k = Some ?r, Ht : rtimer ?r = None |- Ivl_on (<[?k := _]> ?m) (_ :: _) =>
          apply (Ivl_start_none _ _ _ _ _ _ H Ht); [reflexivity|]
      | H : ?m !! ?k = Some ?r, Ht : rtimer ?r = Some ?t |- Ivl_on (<[?k := _]> ?m) (filter _ _) =>
          apply (Ivl_clear _ _ _ _ _ _ H Ht); [reflexivity|]
      | H : ?m !! ?k = Some ?r |- Ivl_on (<[?k := _]> ?m) _ =>
          apply (Ivl_same_timer _ _ _ _ _ H);
            [cbn; repeat match goal with Ht : rtimer ?r = _ |- context [rtimer ?r] => rewrite Ht end;
             reflexivity|]
      | H : ?m !! ?k = None |- Ivl_on (<[?k := _]> ?m) _ => apply (Ivl_new _ _ _ _ H); [reflexivity|]
      end ].

Lemma leaveRoom_Ivl ws s a s1 o :
  Ivl_on (rooms s) (intervals s) -> leaveRoom ws s = Some (a, s1, o) -> Ivl_on (rooms s1) (intervals s1).
Proof.
  intros HV H. unfold leaveRoom in H. minv; simpl in *;
    repeat match goal with
    | H : forEach _ _ _ = Some _ |- _ =>
        destruct (forEach_conns_only _ _ close_notice_conns_only _ _ _ _ H) as (Hr & Hi & _ & _);
        clear H; rewrite ?Hr, ?Hi
    | H : rooms_get _ _ = Own _ |- _ => apply rooms_get_Own in H
    end; ivl_tac.
Qed.

Lemma deleteRoom_Ivl code s a s1 o :
  Ivl_on (rooms s) (intervals s) -> deleteRoom code s = Some (a, s1, o) -> Ivl_on (rooms s1) (intervals s1).
Proof.
  intros HV H. unfold deleteRoom in H. minv; simpl in *;
    repeat match goal with
    | H : rooms_get _ _ = Own _ |- _ => apply rooms_get_Own in H
    | H : rooms_get _ _ = Absent |- _ => apply rooms_get_Absent in H as [H _]
    | H : rooms_get _ _ = Inherited |- _ => apply rooms_get_Inherited in H as [H _]
    end; ivl_tac.
Qed.

Lemma step_Ivl s e s' o :
  Ivl_on (rooms s) (intervals s) -> step s e = Some (s', o) -> Ivl_on (rooms s') (intervals s').
Proof.
  intros HV H. apply step_run_event in H. destruct H as [a H].
  destruct e as [ws|ws req|ws|ws|i]; [| destruct req | | |];
    unfold_handlers; minv;
    repeat match goal with
    | H : leaveRoom _ _ = Some _ |- _ =>
        pose proof (leaveRoom_Ivl _ _ _ _ _ HV H); clear H
    | H : deleteRoom _ _ = Some _ |- _ =>
        pose proof (deleteRoom_Ivl _ _ _ _ _ HV H); clear H
    | H : gen_code _ _ = Some _ |- _ =>
        let Hro := fresh "Hro" in let Hiv := fresh "Hiv" in let Hab := fresh "Hab" in
        destruct (gen_code_spec _ _ _ _ _ H) as (Hro & _ & Hiv & _ & _ & Hab & _); clear H;
        apply rooms_get_Absent in Hab as [Hab _]
    | H : forEach _ _ _ = Some _ |- _ =>
        apply forEach_pure in H;
          [subst | intros ? ?; cbv beta; repeat case_match; eexists; reflexivity]
    | H : broadcast _ _ _ = Some _ |- _ => apply broadcast_inv in H; destruct H as [? ?]; subst
    | H : rooms_get _ _ = Own _ |- _ => apply rooms_get_Own in H
    end; simpl in *; rewrite ?Hro, ?Hiv in *; ivl_tac.
Qed.

Lemma reachable_Ivl s : reachable s -> Ivl_on (rooms s) (intervals s).
Proof.
  induction 1 as [rs _|s e s' o _ IH Hs].
  - intros i c Hin. simpl in Hin. by apply not_elem_of_nil in Hin.
  - exact (step_Ivl _ _ _ _ IH Hs).
Qed.

Lemma reachable_Rost s : reachable s -> Rost (rooms s).
Proof.
  induction 1 as [rs _|s e s' o _ IH Hs].
  - intros c r H. simpl in H. by rewrite lookup_empty in H.
  - exact (step_Rost _ _ _ _ IH Hs).
Qed.

(** X13: In every reachable state, no email appears twice in the client list of any room. *)
Theorem reachable_roster_nodup s c r :
  reachable s -> rooms s !! c = Some r -> NoDup (map pemail (clients r)).
Proof. intros Hr Hc. exact (reachable_Rost s Hr c r Hc). Qed.

(** X14: In every reachable state, every registered interval belongs to a room stored in rooms whose timer holds that interval handle: deleting a room, leaving it as owner, restarting a session or ending it always clears the old interval. *)
Theorem reachable_intervals s i c :
  reachable s -> (i, c) ∈ intervals s ->
  exists r t, rooms s !! c = Some r /\ rtimer r = Some t /\ interval t = i.
Proof. intros Hr Hin. exact (reachable_Ivl s Hr i c Hin). Qed.

(** X15: In every reachable state, the firing of any interval never throws: a registered interval always finds its room and the room's timer. *)
Theorem fire_never_throws s i : reachable s -> step s (Fire i) <> None.
Proof.
  intros Hr. unfold step, run_event. cbn [bind get].
  destruct (list_find (fun p => p.1 = i) (intervals s)) as [[k [i' c]]|] eqn:Hf; [|discriminate].
  apply list_find_Some in Hf as (Hk & _ & _).
  destruct (reachable_Ivl s Hr i' c (list_elem_of_lookup_2 _ _ _ Hk)) as (r & t & Hc & Ht & _).
  unfold tick. cbn [bind get]. rewrite (rooms_get_of_Some _ _ _ Hc), Ht.
  cbn [bind set_room modify]. rewrite (bind_first _ _ _ _ _ _ (broadcast_outputs _ _ _)).
  destruct (js_le0 _); cbn; [rewrite forEach_send; cbn|]; discriminate.
Qed.

Lemma total_get (K : sys -> M unit) : (forall s, total (K s)) -> total (bind get K).
Proof. intros H s. destruct (H s s) as (s1 & o & E). exists s1, o. unfold bind, get. rewrite E. reflexivity. Qed.

Lemma total_bind_dep {A} (m : M A) (k : A -> M unit) :
  (forall s, exists a s' o, m s = Some (a, s', o)) -> (forall a, total (k a)) -> total (bind m k).
Proof.
  intros Hm Hk s. destruct (Hm s) as (a & s1 & o1 & E1). destruct (Hk a s1) as (s2 & o2 & E2).
  eexists _, _. eapply bind_Some; eassumption.
Qed.

Lemma deleteRoom_total code : total (deleteRoom code).
Proof.
  intros s. unfold deleteRoom. cbn [bind get].
  destruct (rooms_get (rooms s) code) as [r| |]; [destruct (rtimer r)|..]; eexists _, _; reflexivity.
Qed.

Ltac total_tac2 Hk :=
  repeat match goal with
  | |- total (bind get _) => apply total_get; intros ?s0
  | |- total (bind _ (fun _ => _)) => apply total_seq
  | |- total (bind _ _) => apply total_bind_dep; [intros ?s0; eexists _, _, _; reflexivity | intros ?a]
  | |- total (forEach _ _) => apply total_forEach; intros
  | |- total (deleteRoom _) => apply deleteRoom_total
  | |- total (broadcast _ _) => unfold broadcast
  | |- total (match ?x with _ => _ end) => let E := fresh "E" in destruct x eqn:E
  | |- total throw =>
      exfalso;
      match goal with
      | E : rooms_get _ ?c = Inherited |- _ =>
          apply rooms_get_Inherited in E as [_ E]; apply (Hk c); [cbn; assumption|exact E]
      end
  | |- total _ => intros ?s0; eexists _, _; reflexivity
  end.

Lemma get_at (K : sys -> M unit) s :
  (exists s' o, K s s = Some (tt, s', o)) -> exists s' o, bind get K s = Some (tt, s', o).
Proof. intros (s1 & o & E). exists s1, o. unfold bind, get. rewrite E. reflexivity. Qed.

Ltac at_state Hk :=
  match goal with
  | |- exists _ _, ?m ?s = Some _ =>
      let Ht := fresh "Ht" in
      assert (Ht : total m) by (unfold do_startSession, do_reconnect, do_deleteRoom, do_finishQuiz;
                                total_tac2 Hk);
      exact (Ht s)
  end.

(** X16: In every reachable state, a request parsed to a JSON object whose action is a string and whose roomCode, userEmail, username, quizData and message body are strings or absent, other than create, never throws, provided its room code is not the name of an inherited Object.prototype property. *)
Theorem requests_never_throw s ws req :
  reachable s ->
  (forall em q, req <> Create em q) ->
  (forall c, field (request_code req) = Some c -> c ∉ inherited_keys) ->
  step s (Recv ws req) <> None.
Proof.
  intros Hr Hcr Hk. pose proof (reachable_Inv _ Hr) as HI. pose proof (reachable_Inv_conns _ Hr) as HC.
  assert (Hok : exists s' o, handle ws req s = Some (tt, s', o)).
  { destruct req as [em q|rc em un|rc t|rc em|rc| |rc em sc|b|act]; unfold handle.
    - exfalso. exact (Hcr em q eq_refl).
    - destruct (leaveRoom_total s ws HI HC) as (s1 & o1 & E). unfold do_join.
      match goal with |- exists _ _, bind (leaveRoom ws) ?K s = _ =>
        assert (Ht : forall a, total (K a)) end.
      { intros a. cbv beta. total_tac2 Hk. }
      destruct (Ht tt s1) as (s2 & o2 & E2). eexists _, _. eapply bind_Some; [exact E|exact E2].
    - at_state Hk.
    - at_state Hk.
    - at_state Hk.
    - unfold do_leaveRoom. apply get_at.
      destruct (field (croom (conn_of s ws))) as [c|] eqn:Ef; [|at_state Hk].
      assert (Hc : c ∉ inherited_keys).
      { apply (conn_of_ok s ws HC). unfold field in Ef.
        destruct (croom (conn_of s ws)) as [c'|]; [|discriminate].
        destruct (String.eqb c' ""); [discriminate|]. by injection Ef as ->. }
      destruct (rooms_get (rooms s) c) eqn:Eg; [at_state Hk| |at_state Hk].
      apply rooms_get_Inherited in Eg as [_ Eg]. contradiction.
    - at_state Hk.
    - unfold do_message. apply get_at.
      destruct (field (croom (conn_of s ws))) as [c|] eqn:Ef; [|at_state Hk].
      assert (Hc : c ∉ inherited_keys).
      { apply (conn_of_ok s ws HC). unfold field in Ef.
        destruct (croom (conn_of s ws)) as [c'|]; [|discriminate].
        destruct (String.eqb c' ""); [discriminate|]. by injection Ef as ->. }
      destruct (rooms_get (rooms s) c) eqn:Eg; [at_state Hk| |at_state Hk].
      apply rooms_get_Inherited in Eg as [_ Eg]. contradiction.
    - at_state Hk. }
  destruct Hok as (s' & o & E). unfold step, run_event. rewrite E. discriminate.
Qed.


(** X17: In every reachable state, a new connection, a close event and an error event never throw. *)
Theorem events_never_throw s ws :
  reachable s -> step s (Connect ws) <> None /\ step s (Close ws) <> None /\ step s (Error ws) <> None.
Proof.
  intros Hr. destruct (leaveRoom_total s ws (reachable_Inv _ Hr) (reachable_Inv_conns _ Hr)) as (s1 & o1 & E).
  unfold step, run_event. rewrite E. split; [discriminate|]. split; discriminate.
Qed.

Lemma Qred_int a : Qred (a # 1) = a # 1.
Proof.
  unfold Qred. pose proof (Z.ggcd_gcd a 1) as G. pose proof (Z.ggcd_correct_divisors a 1) as D.
  destruct (Z.ggcd a 1) as [g [aa bb]]. cbn in *. rewrite Z.gcd_1_r in G. subst g.
  destruct D as [D1 D2]. rewrite Z.mul_1_l in D1, D2. subst. reflexivity.
Qed.

Lemma js_dec_jint z : js_dec (jint z) = jint (z - 1).
Proof.
  unfold js_dec, jint. f_equal. unfold Qminus, Qplus, Qopp, inject_Z. cbn.
  rewrite Qred_int. f_equal. lia.
Qed.

Lemma js_le0_jint z : js_le0 (jint z) = (z <=? 0)%Z.
Proof. unfold js_le0, jint, Qle_bool, inject_Z. cbn. by rewrite !Z.mul_1_r. Qed.

Lemma tick_count s c r i k z :
  rooms s !! c = Some r -> rtimer r = Some (mkT (jint z) i) ->
  list_find (fun p => p.1 = i) (intervals s) = Some (k, (i, c)) -> (1 < z)%Z ->
  step s (Fire i) =
    Some (with_rooms (insert c (r_with_timer r (Some (mkT (jint (z - 1)) i)))) s,
          map (fun p => (pws p, MTimerTick (jint (z - 1)))) (everyone r)).
Proof.
  intros Hc Ht Hf Hz. unfold step, run_event, tick. cbn [bind get]. rewrite Hf. cbn [bind get].
  rewrite (rooms_get_of_Some _ _ _ Hc), Ht. cbn [timeRemaining interval]. rewrite js_dec_jint.
  unfold set_room, modify. cbn [bind]. rewrite (bind_first _ _ _ _ _ _ (broadcast_outputs _ _ _)).
  rewrite js_le0_jint. replace ((z - 1 <=? 0)%Z) with false by (symmetry; apply Z.leb_gt; lia).
  cbn. rewrite app_nil_r. reflexivity.
Qed.

Lemma run_app s es1 es2 :
  run s (es1 ++ es2) =
    match run s es1 with
    | Some (s1, o1) => match run s1 es2 with Some (s2, o2) => Some (s2, (o1 ++ o2)%list) | None => None end
    | None => None
    end.
Proof.
  revert s. induction es1 as [|e es1 IH]; intros s; cbn.
  - destruct (run s es2) as [[s2 o2]|]; reflexivity.
  - destruct (step s e) as [[s1 o1]|]; [|reflexivity]. rewrite IH.
    destruct (run s1 es1) as [[s2 o2]|]; [|reflexivity].
    destruct (run s2 es2) as [[s3 o3]|]; [|reflexivity]. by rewrite app_assoc.
Qed.

(** X12: If a room's timer holds an integer n at most 2^53 and its interval i is registered, then m firings of i with m < n broadcast timerTick with the values n-1, ..., n-m to the owner and clients, leave only the remaining time changed (to n-m), and do not end the session. *)
Theorem countdown s c r i k n m :
  (n <= 2 ^ 53)%Z ->
  rooms s !! c = Some r -> rtimer r = Some (mkT (jint n) i) ->
  list_find (fun p => p.1 = i) (intervals s) = Some (k, (i, c)) -> (Z.of_nat m < n)%Z ->
  run s (repeat (Fire i) m) =
    Some (with_rooms (insert c (r_with_timer r (Some (mkT (jint (n - Z.of_nat m)) i)))) s,
          flat_map (fun j => map (fun p => (pws p, MTimerTick (jint (n - Z.of_nat j)))) (everyone r))
                   (seq 1 m)).
Proof.
  intros _ Hc Ht Hf. induction m as [|m IH]; intros Hm.
  - cbn. rewrite Z.sub_0_r, (timer_self _ _ Ht), (set_room_same _ _ _ Hc). reflexivity.
  - change (repeat (Fire i) (S m)) with (Fire i :: repeat (Fire i) m).
    rewrite List.repeat_cons, run_app, IH by lia. cbn [run].
    rewrite (tick_count _ c (r_with_timer r (Some (mkT (jint (n - Z.of_nat m)) i))) i k (n - Z.of_nat m))
      by (cbn; rewrite ?lookup_insert_eq; auto; lia).
    rewrite seq_S, flat_map_app. cbn. rewrite app_nil_r. f_equal. f_equal.
    + unfold with_rooms. cbn. rewrite insert_insert_eq. replace (n - Z.of_nat (S m))%Z with (n - Z.of_nat m - 1)%Z by lia. reflexivity.
    + rewrite ?app_nil_r. replace (n - Z.of_nat (S m))%Z with (n - Z.of_nat m - 1)%Z by lia. reflexivity.
Qed.

(** X18: A successful create from a connection without a room tag, with a non-empty userEmail, stores under a code that was absent before a waiting room owned by the sender, with no clients, the quiz (or null) and no timer; it tags the sender with the code and email, replies created with the code and the quiz, and leaves intervals and other connections' tags unchanged. *)
Theorem create_room s ws e q s' o :
  field (croom (conn_of s ws)) = None -> e <> "" ->
  step s (Recv ws (Create (Some e) q)) = Some (s', o) ->
  exists code,
    rooms_get (rooms s) code = Absent /\
    o = [(ws, MCreated code (field q))] /\
    rooms s' = <[code := mkRoom (mkP ws e) [] (field q) Waiting None None]> (rooms s) /\
    intervals s' = intervals s /\
    conn_of s' ws = mkC (Some code) (Some e) /\
    forall w, w <> ws -> conn_of s' w = conn_of s w.
Proof.
  intros Hn He H. unfold step in H.
  destruct (run_event _ s) as [[[[] s1] o1]|] eqn:E; [|discriminate]. injection H as <- <-.
  unfold run_event, handle, do_create in E.
  apply bind_inv in E as (a & s2 & o2 & o3 & E1 & E & ->).
  rewrite leaveRoom_untagged in E1 by exact Hn. injection E1 as <- <- <-.
  rewrite field_Some in E by exact He. minv.
  match goal with G : gen_code _ _ = Some _ |- _ => apply gen_code_spec in G as (Hr & Hc & Hi & _ & -> & Ha & _) end.
  assert (Hx : forall w, conn_of x8 w =
    conn_of (with_conns (insert ws (mkC (croom (conn_of s ws)) (Some e))) s) w)
    by (intros w; unfold conn_of; rewrite Hc; reflexivity).
  cbn in Hr, Hi, Ha. exists x7. split; [exact Ha|]. split; [reflexivity|].
  cbn [rooms intervals with_rooms with_conns]. rewrite Hr. split; [reflexivity|]. split; [exact Hi|].
  conn_simpl. rewrite Hx. conn_simpl. rewrite !decide_True by reflexivity. split; [reflexivity|].
  intros w Hw. conn_simpl. rewrite Hx. conn_simpl. rewrite !decide_False by exact Hw. reflexivity.
Qed.

(** X10: The roster update used by join (find the client by email, then rebind its connection or push a new entry) leaves the list of emails unchanged when the email was present and appends it otherwise; the result contains the sender under that email, keeps every entry with another email, and keeps the emails free of duplicates. *)
Theorem rebind_or_push_spec cs ws e :
  map pemail (rebind_or_push cs ws e) =
    (if decide (e ∈ map pemail cs) then map pemail cs else map pemail cs ++ [e])%list /\
  mkP ws e ∈ rebind_or_push cs ws e /\
  (forall p, p ∈ cs -> pemail p <> e -> p ∈ rebind_or_push cs ws e) /\
  (NoDup (map pemail cs) -> NoDup (map pemail (rebind_or_push cs ws e))).
Proof. exact (rebind_or_push_facts cs ws e). Qed.


Ltac room_of st c r Hc :=
  destruct (rooms st !! c) as [r|] eqn:Hc; [|vm_compute in Hc; discriminate];
  let H' := fresh in pose proof Hc as H'; vm_compute in H'; injection H' as H'; subst r.

(** Witness of X1. *)
Lemma message_relay_witness :
  exists r, field (croom (conn_of s_created 1)) = Some "1000" /\ rooms s_created !! "1000" = Some r /\
    step s_created (Recv 1 (Message (Some "hi"))) =
      Some (s_created, map (fun p => (pws p, MRelay (Some "hi"))) (everyone r)).
Proof.
  room_of s_created "1000" r Hc. eexists. split; [vm_compute; reflexivity|]. split; [exact Hc|].
  apply (message_relay s_created 1 (Some "hi") "1000" _); [vm_compute; reflexivity|exact Hc].
Defined.

(** Witness of X2. *)
Lemma message_no_room_witness :
  field (croom (conn_of s_created 2)) = None /\
  step s_created (Recv 2 (Message (Some "hi"))) = Some (s_created, [(2, MError "You are not in a room")]).
Proof.
  split; [vm_compute; reflexivity|]. apply message_no_room. left. vm_compute. reflexivity.
Defined.

(** Witness of X3. *)
Lemma owner_only_witness :
  exists r, rooms s_created !! "1000" = Some r /\ pws (owner r) <> 2 /\
    step s_created (Recv 2 (StartSession (Some "1000") None)) =
      Some (s_created, [(2, MError "Only the owner can start the session")]).
Proof.
  room_of s_created "1000" r Hc. eexists. split; [exact Hc|]. split; [cbn; lia|].
  apply (owner_only s_created 2 (Some "1000") None _ Hc); cbn; lia.
Defined.

(** Witness of X4. *)
Lemma deleteRoom_by_owner_witness :
  exists r, rooms s_created !! "1000" = Some r /\ pws (owner r) = 1 /\
    exists s', step s_created (Recv 1 (DeleteRoomReq (Some "1000"))) =
      Some (s', map (fun p => (pws p, MRoomDeleted "1000" (Nat.eqb (pws p) (pws (owner r))))) (everyone r)) /\
    rooms s' = delete "1000" (rooms s_created).
Proof.
  room_of s_created "1000" r Hc. eexists. split; [exact Hc|]. split; [reflexivity|].
  destruct (deleteRoom_by_owner s_created 1 (Some "1000") "1000" _ eq_refl Hc eq_refl) as (s' & H1 & H2 & _).
  exists s'. split; assumption.
Defined.

(** Witness of X5. *)
Lemma member_disconnect_witness :
  exists r, field (croom (conn_of s_started 2)) = Some "1000" /\ rooms s_started !! "1000" = Some r /\
    pws (owner r) <> 2 /\
    exists s', step s_started (Close 2) = Some (s', []) /\ conn_of s' 2 = conn0 /\
      rooms s' = <["1000" := r_with_clients r (filter (fun p => pws p ≠ 2) (clients r))]> (rooms s_started).
Proof.
  room_of s_started "1000" r Hc. eexists. split; [vm_compute; reflexivity|]. split; [exact Hc|].
  split; [cbn; lia|].
  destruct (member_disconnect s_started 2 "1000" _ (Close 2) (or_introl eq_refl)
              ltac:(vm_compute; reflexivity) Hc ltac:(cbn; lia)) as (s' & H1 & H2 & _ & H4 & _).
  exists s'. auto.
Defined.

(** Witness of X6. *)
Lemma owner_disconnect_witness :
  exists r, field (croom (conn_of s_started 1)) = Some "1000" /\ rooms s_started !! "1000" = Some r /\
    pws (owner r) = 1 /\
    exists s', step s_started (Error 1) = Some (s', map (fun p => (pws p, MRoomClosed)) (clients r)) /\
      rooms s' = delete "1000" (rooms s_started) /\ conn_of s' 1 = conn0.
Proof.
  room_of s_started "1000" r Hc. eexists. split; [vm_compute; reflexivity|]. split; [exact Hc|].
  split; [reflexivity|].
  destruct (owner_disconnect s_started 1 "1000" _ (Error 1) (or_intror eq_refl)
              ltac:(vm_compute; reflexivity) Hc eq_refl) as (s' & H1 & H2 & _ & H4 & _).
  exists s'. auto.
Defined.

(** Witness of X7. *)
Lemma leave_request_member_witness :
  exists r, field (croom (conn_of s_started 2)) = Some "1000" /\ rooms s_started !! "1000" = Some r /\
    pws (owner r) <> 2 /\
    exists s' o, step s_started (Recv 2 LeaveRoomReq) = Some (s', o) /\ conn_of s' 2 = conn0.
Proof.
  room_of s_started "1000" r Hc. eexists. split; [vm_compute; reflexivity|]. split; [exact Hc|].
  split; [cbn; lia|].
  destruct (leave_request_member s_started 2 "1000" _ ltac:(vm_compute; reflexivity) Hc ltac:(cbn; lia))
    as (s' & H1 & _ & _ & H4 & _).
  eexists s', _. eauto.
Defined.

(** Witness of X8. *)
Lemma leave_request_errors_witness :
  field (croom (conn_of s_created 2)) = None /\
  step s_created (Recv 2 LeaveRoomReq) = Some (s_created, [(2, MError "You are not in a room")]).
Proof.
  split; [vm_compute; reflexivity|]. apply (proj1 (leave_request_errors s_created 2)).
  vm_compute. reflexivity.
Defined.

(** Witness of X9. *)
Lemma join_success_witness :
  exists r, field (croom (conn_of s_created 2)) = None /\ rooms s_created !! "1000" = Some r /\
    state r <> Started /\
    exists s' o, step s_created (Recv 2 (Join (Some "1000") (Some "b@x") None)) = Some (s', o) /\
      conn_of s' 2 = mkC (Some "1000") (Some "b@x").
Proof.
  room_of s_created "1000" r Hc. eexists. split; [vm_compute; reflexivity|]. split; [exact Hc|].
  split; [cbn; discriminate|].
  destruct (join_success s_created 2 "1000" "b@x" None _ ltac:(vm_compute; reflexivity)
              ltac:(discriminate) ltac:(discriminate) Hc ltac:(cbn; discriminate))
    as (s' & H1 & _ & _ & H4 & _).
  eexists s', _. eauto.
Defined.

(** Witness of X10. *)
Lemma rebind_or_push_spec_witness :
  NoDup (map pemail [mkP 2 "b@x"]) /\ NoDup (map pemail (rebind_or_push [mkP 2 "b@x"] 3 "b@x")).
Proof.
  assert (H : NoDup (map pemail [mkP 2 "b@x"])) by (cbn; apply NoDup_singleton).
  split; [exact H|]. exact (proj2 (proj2 (proj2 (rebind_or_push_spec [mkP 2 "b@x"] 3 "b@x"))) H).
Defined.

(** Witness of X11. *)
Lemma start_session_owner_witness :
  exists r, rooms s_created !! "1000" = Some r /\ pws (owner r) = 1 /\
    exists s' o, step s_created (Recv 1 (StartSession (Some "1000") (Some (jint 5)))) = Some (s', o) /\
      next_iv s' = S (next_iv s_created).
Proof.
  room_of s_created "1000" r Hc. eexists. split; [exact Hc|]. split; [reflexivity|].
  destruct (start_session_owner s_created 1 (Some "1000") (Some (jint 5)) _ Hc eq_refl)
    as (s' & H1 & _ & _ & H4 & _).
  eexists s', _. eauto.
Defined.

(** Witness of X12. *)
Lemma countdown_witness :
  let s3 := after [0%Z] (ev_created ++ [Recv 2 (Join (Some "1000") (Some "b@x") None);
                                         Recv 1 (StartSession (Some "1000") (Some (jint 3)))]) in
  exists r, (3 <= 2 ^ 53)%Z /\ rooms s3 !! "1000" = Some r /\ rtimer r = Some (mkT (jint 3) 0) /\
    list_find (fun p => p.1 = 0) (intervals s3) = Some (0, (0, "1000")) /\ (Z.of_nat 2 < 3)%Z /\
    run s3 (repeat (Fire 0) 2) =
      Some (with_rooms (insert "1000" (r_with_timer r (Some (mkT (jint (3 - Z.of_nat 2)) 0)))) s3,
            flat_map (fun j => map (fun p => (pws p, MTimerTick (jint (3 - Z.of_nat j)))) (everyone r))
                     (seq 1 2)).
Proof.
  intros s3. destruct (rooms s3 !! "1000") as [r|] eqn:Hc; [|vm_compute in Hc; discriminate].
  exists r. split; [lia|]. split; [reflexivity|].
  assert (Ht : rtimer r = Some (mkT (jint 3) 0))
    by (vm_compute in Hc; injection Hc as <-; vm_compute; reflexivity).
  assert (Hf : list_find (fun p => p.1 = 0) (intervals s3) = Some (0, (0, "1000")))
    by (vm_compute; reflexivity).
  split; [exact Ht|]. split; [exact Hf|]. split; [lia|].
  exact (countdown s3 "1000" _ 0 0 3 2 ltac:(lia) Hc Ht Hf ltac:(lia)).
Defined.

(** Witness of X13. *)
Lemma reachable_roster_nodup_witness :
  exists r, reachable s_started /\ rooms s_started !! "1000" = Some r /\ NoDup (map pemail (clients r)).
Proof.
  destruct (rooms s_started !! "1000") as [r|] eqn:Hc; [|vm_compute in Hc; discriminate].
  exists r. split; [exact s_started_reachable|]. split; [reflexivity|].
  exact (reachable_roster_nodup s_started "1000" r s_started_reachable Hc).
Defined.

(** Witness of X14. *)
Lemma reachable_intervals_witness :
  reachable s_started /\ (0, "1000") ∈ intervals s_started /\
  exists r t, rooms s_started !! "1000" = Some r /\ rtimer r = Some t /\ interval t = 0.
Proof.
  assert (Hin : (0, "1000") ∈ intervals s_started).
  { assert (Hi : intervals s_started = [(0, "1000")]) by (vm_compute; reflexivity).
    rewrite Hi. apply list_elem_of_singleton. reflexivity. }
  split; [exact s_started_reachable|]. split; [exact Hin|].
  exact (reachable_intervals s_started 0 "1000" s_started_reachable Hin).
Defined.

(** Witness of X15. *)
Lemma fire_never_throws_witness : reachable s_started /\ step s_started (Fire 0) <> None.
Proof. split; [exact s_started_reachable|]. exact (fire_never_throws s_started 0 s_started_reachable). Defined.

(** Witness of X16. *)
Lemma requests_never_throw_witness :
  reachable s_started /\
  (forall em q, Join (Some "1000") (Some "c@x") None <> Create em q) /\
  (forall c, field (request_code (Join (Some "1000") (Some "c@x") None)) = Some c -> c ∉ inherited_keys) /\
  step s_started (Recv 3 (Join (Some "1000") (Some "c@x") None)) <> None.
Proof.
  assert (Hcr : forall em q, Join (Some "1000") (Some "c@x") None <> Create em q) by (intros em q; discriminate).
  assert (Hk : forall c, field (request_code (Join (Some "1000") (Some "c@x") None)) = Some c ->
                         c ∉ inherited_keys).
  { intros c H. vm_compute in H. injection H as <-. apply (bool_decide_unpack _). vm_compute. exact I. }
  split; [exact s_started_reachable|]. split; [exact Hcr|]. split; [exact Hk|].
  exact (requests_never_throw s_started 3 _ s_started_reachable Hcr Hk).
Defined.

(** Witness of X17. *)
Lemma events_never_throw_witness :
  reachable s_started /\
  step s_started (Connect 2) <> None /\ step s_started (Close 2) <> None /\ step s_started (Error 2) <> None.
Proof. split; [exact s_started_reachable|]. exact (events_never_throw s_started 2 s_started_reachable). Defined.

(** Witness of X18. *)
Lemma create_room_witness :
  exists s' o code,
    field (croom (conn_of (init [0%Z]) 1)) = None /\
    step (init [0%Z]) (Recv 1 (Create (Some "a@x") (Some "quiz"))) = Some (s', o) /\
    rooms_get (rooms (init [0%Z])) code = Absent /\
    o = [(1, MCreated code (field (Some "quiz")))] /\
    conn_of s' 1 = mkC (Some code) (Some "a@x").
Proof.
  destruct (step (init [0%Z]) (Recv 1 (Create (Some "a@x") (Some "quiz")))) as [[s' o]|] eqn:Hs;
    [|vm_compute in Hs; discriminate].
  assert (Hn : field (croom (conn_of (init [0%Z]) 1)) = None) by reflexivity.
  destruct (create_room (init [0%Z]) 1 "a@x" (Some "quiz") s' o Hn ltac:(discriminate) Hs)
    as (code & H1 & H2 & _ & _ & H5 & _).
  exists s', o, code. auto.
Defined.
